(** * AXIS: the translate handler of [src/index.tsx]

    A shallow embedding of [handleTranslate] (the validation of the request,
    the three prompt templates, the loop that consumes the response stream
    and the cleanup of code-fence markers) and of the Apply button that
    invokes it, with the properties of the stream-consumption and
    prompt-construction core. *)

From Stdlib Require Import String Ascii.
From Stdlib Require Import List NArith Arith Bool Lia.
Import ListNotations.

Set Implicit Arguments.

(** ** JavaScript strings

    A JavaScript string is a sequence of UTF-16 code units.  The regular
    expressions and [trim] of the handler only look at code units of the
    Basic Multilingual Plane, so a code unit is modelled by its number. *)

Module JS.

Definition char16 := N.
Definition jsstring := list char16.

(** A literal of the source, written with ASCII characters. *)
Fixpoint lit (s : string) : jsstring :=
  match s with
  | EmptyString => []
  | String c r => N_of_ascii c :: lit r
  end.

Definition LF : char16 := 10%N.

(** [===] on strings. *)
Fixpoint strictEq (a b : jsstring) : bool :=
  match a, b with
  | [], [] => true
  | x :: a', y :: b' => N.eqb x y && strictEq a' b'
  | _, _ => false
  end.

(** [s.startsWith(p)] *)
Fixpoint startsWith (s p : jsstring) {struct p} : bool :=
  match p with
  | [] => true
  | y :: p' =>
      match s with
      | [] => false
      | x :: s' => N.eqb x y && startsWith s' p'
      end
  end.

(** The class [\w] of a regular expression without the [u] and [i] flags:
    [A-Za-z0-9_]. *)
Definition isWordChar (c : char16) : bool :=
  ((48 <=? c) && (c <=? 57) || (65 <=? c) && (c <=? 90)
   || (c =? 95) || (97 <=? c) && (c <=? 122))%N.

(** WhiteSpace and LineTerminator code points of ECMAScript, the ones
    [String.prototype.trim] removes: TAB, LF, VT, FF, CR, SP, NBSP, the
    category Zs, LS, PS and the byte order mark. *)
Definition isWhiteSpace (c : char16) : bool :=
  ((9 <=? c) && (c <=? 13) || (c =? 32) || (c =? 160) || (c =? 5760)
   || (8192 <=? c) && (c <=? 8202) || (c =? 8232) || (c =? 8233)
   || (c =? 8239) || (c =? 8287) || (c =? 12288) || (c =? 65279))%N.

Fixpoint dropWhile (p : char16 -> bool) (s : jsstring) : jsstring :=
  match s with
  | [] => []
  | c :: r => if p c then dropWhile p r else s
  end.

(** [s.trim()]: white space removed from both ends. *)
Definition trim (s : jsstring) : jsstring :=
  rev (dropWhile isWhiteSpace (rev (dropWhile isWhiteSpace s))).

(** Truthiness of a string: the empty string is the only falsy one. *)
Definition truthy (s : jsstring) : bool :=
  match s with [] => false | _ :: _ => true end.

End JS.

Import JS.

(** ** The two regular expressions of the cleanup *)

Definition FENCE : jsstring := lit "```".

(** [s.replace(/^```\w*\n?/, '')].  Without the [m] flag [^] is the start of
    the input, so the only candidate match is at index 0.  After the three
    backticks, [\w*] is greedy and takes the longest run of word characters,
    then [\n?] takes a line feed when one follows; neither can make the
    match fail, so there is no backtracking.  Without a match the string is
    returned as it is. *)
Definition dropOptLF (s : jsstring) : jsstring :=
  match s with
  | c :: r => if N.eqb c LF then r else s
  | [] => []
  end.

Definition replaceOpenFence (s : jsstring) : jsstring :=
  if startsWith s FENCE then
    dropOptLF (dropWhile isWordChar (skipn (length FENCE) s))
  else s.

(** [s.replace(/```$/g, '')].  The search tries every index from the left;
    without the [m] flag [$] is the end of the input, so the pattern matches
    at an index exactly when what remains there is the three backticks and
    nothing more.  The characters before a match are copied, the match is
    replaced by the empty string, and the search resumes after it. *)
Fixpoint replaceCloseFence (s : jsstring) : jsstring :=
  match s with
  | [] => []
  | c :: r =>
      if strictEq s FENCE then [] else c :: replaceCloseFence r
  end.

(** Lines 218-225: the value handed to [setOutputCode] for the accumulated
    text [fullText]. *)
Definition displayCode (fullText : jsstring) : jsstring :=
  let displayCode := fullText in
  let displayCode :=
    if startsWith displayCode FENCE then replaceOpenFence displayCode
    else displayCode in
  replaceCloseFence displayCode.

(** ** Data of the component *)

(** Line 7: the selectable languages; the first one is the sentinel. *)
Definition NATURAL_LANGUAGE : jsstring := lit "Natural Language".

Definition LANGUAGES : list jsstring :=
  map lit
    ["Natural Language"; "JavaScript"; "TypeScript"; "Python"; "Java"; "C++";
     "C#"; "Go"; "Rust"; "Swift"; "Kotlin"; "PHP"; "Ruby"; "SQL"; "HTML";
     "CSS"; "Bash"; "JSON"; "YAML"]%string.

(** Lines 122-127: the [useState] cells of [App]. *)
Record AppState := mkApp {
  inputLanguage : jsstring;
  outputLanguage : jsstring;
  inputCode : jsstring;
  outputCode : jsstring;
  loading : bool;
  toast : jsstring
}.

(** The [text] of a chunk of the response stream: a string, or absent. *)
Inductive chunkText :=
| TextUndefined
| TextNull
| TextString (s : jsstring).

Record chunk := mkChunk { text : chunkText }.

(** Line 212: [chunk.text || ''] *)
Definition textOrEmpty (c : chunk) : jsstring :=
  match text c with
  | TextString s => if truthy s then s else []
  | TextUndefined | TextNull => []
  end.

(** What the generation service does in one run of the handler: the
    constructor of the client throws (line 185), the call that opens the
    stream throws (line 202), or the stream yields chunks and then ends or
    throws. *)
Inductive ending := StreamEnds | StreamThrows.

Inductive service :=
| ClientThrows
| OpenThrows
| Yields (chunks : list chunk) (fin : ending).

(** What the handler does to the outside, in the order it does it. *)
Inductive effect :=
| SetToast (message : jsstring)
| SetLoading (b : bool)
| SetOutputCode (code : jsstring)
| GenerateContentStream (model contents systemInstruction : jsstring)
| TriggerConfetti
| ConsoleError.

(** The store a run of the handler works on: the state cells, the local
    accumulator [fullText] of the stream loop and the log of effects. *)
Record Store := mkStore {
  app : AppState;
  fullText : jsstring;
  log : list effect
}.

(** ** A monad of state and exceptions

    State changes made before a [throw] stay, as in JavaScript. *)

Inductive completion (A : Type) :=
| Normal (a : A)
| Thrown.
Arguments Thrown {A}.

Definition Run (A : Type) := Store -> completion A * Store.

Definition ret {A} (a : A) : Run A := fun st => (Normal a, st).

Definition bind {A B} (m : Run A) (k : A -> Run B) : Run B :=
  fun st =>
    match m st with
    | (Normal a, st') => k a st'
    | (Thrown, st') => (Thrown, st')
    end.

Definition throw {A} : Run A := fun st => (Thrown, st).

(** [try { body } catch (error) { handler }] *)
Definition tryCatch {A} (body handler : Run A) : Run A :=
  fun st =>
    match body st with
    | (Normal a, st') => (Normal a, st')
    | (Thrown, st') => handler st'
    end.

(** [try { body } finally { final }], for a [final] that neither returns
    nor throws on its own account. *)
Definition tryFinally {A} (body : Run A) (final : Run unit) : Run A :=
  fun st =>
    match body st with
    | (c, st') =>
        match final st' with
        | (Normal _, st'') => (c, st'')
        | (Thrown, st'') => (Thrown, st'')
        end
    end.

Declare Scope run_scope.
Delimit Scope run_scope with run.
Notation "x <- m ;; k" := (bind m (fun x => k))
  (at level 61, m at next level, right associativity) : run_scope.
Notation "m ;; k" := (bind m (fun _ => k))
  (at level 61, right associativity) : run_scope.
Open Scope run_scope.

Definition emit (e : effect) : Run unit :=
  fun st => (Normal tt, mkStore (app st) (fullText st) (log st ++ [e])).

Definition updApp (f : AppState -> AppState) : Run unit :=
  fun st => (Normal tt, mkStore (f (app st)) (fullText st) (log st)).

Definition withToast (m : jsstring) (a : AppState) : AppState :=
  mkApp (inputLanguage a) (outputLanguage a) (inputCode a) (outputCode a)
        (loading a) m.

Definition withLoading (b : bool) (a : AppState) : AppState :=
  mkApp (inputLanguage a) (outputLanguage a) (inputCode a) (outputCode a)
        b (toast a).

Definition withOutputCode (c : jsstring) (a : AppState) : AppState :=
  mkApp (inputLanguage a) (outputLanguage a) (inputCode a) c
        (loading a) (toast a).

Definition setToast (m : jsstring) : Run unit :=
  emit (SetToast m) ;; updApp (withToast m).

Definition setLoading (b : bool) : Run unit :=
  emit (SetLoading b) ;; updApp (withLoading b).

Definition setOutputCode (c : jsstring) : Run unit :=
  emit (SetOutputCode c) ;; updApp (withOutputCode c).

Definition triggerConfetti : Run unit := emit TriggerConfetti.

Definition consoleError : Run unit := emit ConsoleError.

Definition assignFullText (s : jsstring) : Run unit :=
  fun st => (Normal tt, mkStore (app st) s (log st)).

Definition readFullText : Run jsstring :=
  fun st => (Normal (fullText st), st).

(** ** The prompt (lines 187-199) *)

Definition MSG_EMPTY : jsstring := lit "Please enter code to translate.".
Definition MSG_SAME : jsstring :=
  lit "Input and output languages must be different.".
Definition MSG_FAILED : jsstring :=
  lit "Translation failed. Check API key or network.".
Definition MODEL : jsstring := lit "gemini-3-flash-preview".

Definition generatePrompt (outLang code : jsstring) : jsstring :=
  lit "Generate " ++ outLang
    ++ lit " code that performs the following task:" ++ [LF; LF] ++ code.

Definition explainPrompt (inLang code : jsstring) : jsstring :=
  lit "Explain the following " ++ inLang
    ++ lit " code in clear, concise natural language:" ++ [LF; LF] ++ code.

Definition translatePrompt (inLang outLang code : jsstring) : jsstring :=
  lit "Translate the following " ++ inLang ++ lit " code to " ++ outLang
    ++ lit "." ++ [LF; LF] ++ code.

Definition buildPrompt (inLang outLang code : jsstring) : jsstring :=
  if strictEq inLang NATURAL_LANGUAGE then generatePrompt outLang code
  else if strictEq outLang NATURAL_LANGUAGE then explainPrompt inLang code
  else translatePrompt inLang outLang code.

Definition SYS_EXPLAIN : jsstring :=
  lit "You are a helpful coding assistant. Explain code clearly and concisely.".

Definition SYS_RAW_CODE : jsstring :=
  lit "You are a coding expert. Output ONLY the raw code. Do not use markdown code blocks (```). Do not add explanations or conversational text.".

Definition buildSystemInstruction (outLang : jsstring) : jsstring :=
  if strictEq outLang NATURAL_LANGUAGE then SYS_EXPLAIN else SYS_RAW_CODE.

(** ** The handler (lines 170-236) *)

(** Lines 211-226: [for await (const chunk of responseStream)]. *)
Fixpoint consume (chunks : list chunk) (fin : ending) : Run unit :=
  match chunks with
  | [] =>
      match fin with
      | StreamEnds => ret tt
      | StreamThrows => throw
      end
  | c :: rest =>
      let text := textOrEmpty c in
      acc <- readFullText ;;
      assignFullText (acc ++ text) ;;
      acc <- readFullText ;;
      setOutputCode (displayCode acc) ;;
      consume rest fin
  end.

(** Line 185: [new GoogleGenAI({ apiKey })]. *)
Definition newGoogleGenAI (svc : service) : Run unit :=
  match svc with
  | ClientThrows => throw
  | OpenThrows | Yields _ _ => ret tt
  end.

(** Lines 202-208: the call that opens the stream. *)
Definition generateContentStream (svc : service)
    (contents systemInstruction : jsstring) : Run (list chunk * ending) :=
  emit (GenerateContentStream MODEL contents systemInstruction) ;;
  match svc with
  | ClientThrows | OpenThrows => throw
  | Yields chunks fin => ret (chunks, fin)
  end.

(** The handler closes over the state cells of the render it was created
    in: [inputCode], [inputLanguage] and [outputLanguage] are read from the
    store it starts from. *)
Definition handleTranslate (svc : service) : Run unit :=
  fun st0 =>
    let inputCode := inputCode (app st0) in
    let inputLanguage := inputLanguage (app st0) in
    let outputLanguage := outputLanguage (app st0) in
    (if negb (truthy (trim inputCode)) then
       setToast MSG_EMPTY
     else if strictEq inputLanguage outputLanguage
             && negb (strictEq inputLanguage NATURAL_LANGUAGE) then
       setToast MSG_SAME
     else
       setLoading true ;;
       setOutputCode [] ;;
       tryFinally
         (tryCatch
            (newGoogleGenAI svc ;;
             let prompt := buildPrompt inputLanguage outputLanguage inputCode in
             let systemInstruction := buildSystemInstruction outputLanguage in
             responseStream <- generateContentStream svc prompt systemInstruction ;;
             assignFullText [] ;;
             consume (fst responseStream) (snd responseStream) ;;
             triggerConfetti)
            (consoleError ;;
             setToast MSG_FAILED))
         (setLoading false)) st0.

(** Line 308: [<button onClick={handleTranslate} disabled={loading}>].  The
    prop [disabled] is the [loading] of the render the button belongs to;
    a disabled button dispatches no click, an enabled one runs the
    handler, which has no test of [loading] of its own. *)
Definition applyButtonClick (disabled : bool) (svc : service) : Run unit :=
  fun st => if disabled then ret tt st else handleTranslate svc st.

(** The state cells and effects of a whole run. *)
Definition finalStore (m : Run unit) (st : Store) : Store := snd (m st).

(** The effects a run adds to the log. *)
Definition effectsOf (m : Run unit) (st : Store) : list effect :=
  skipn (length (log st)) (log (finalStore m st)).

Definition isStreamOpen (e : effect) : bool :=
  match e with GenerateContentStream _ _ _ => true | _ => false end.

Definition isPublish (e : effect) : bool :=
  match e with SetOutputCode _ => true | _ => false end.

Definition isNotice (e : effect) : bool :=
  match e with SetToast _ => true | _ => false end.

(** The text accumulated from the first [k] chunks. *)
Definition accumulated (chunks : list chunk) (k : nat) : jsstring :=
  concat (map textOrEmpty (firstn k chunks)).

(** A request passes the validation of lines 171-178. *)
Definition passesValidation (a : AppState) : bool :=
  truthy (trim (inputCode a))
  && negb (strictEq (inputLanguage a) (outputLanguage a)
           && negb (strictEq (inputLanguage a) NATURAL_LANGUAGE)).

(** The values the loop publishes, one per chunk. *)
Definition published (start : jsstring) (chunks : list chunk) : list effect :=
  map (fun k => SetOutputCode (displayCode (start ++ accumulated chunks k)))
      (seq 1 (length chunks)).

(** The request a run sends, the chunks it receives and how it winds up,
    by what the service does. *)
Definition requestOf (a : AppState) : effect :=
  GenerateContentStream MODEL
    (buildPrompt (inputLanguage a) (outputLanguage a) (inputCode a))
    (buildSystemInstruction (outputLanguage a)).

Definition clientOk (svc : service) : bool :=
  match svc with ClientThrows => false | OpenThrows | Yields _ _ => true end.

Definition requests (svc : service) (a : AppState) : list effect :=
  match svc with
  | ClientThrows => []
  | OpenThrows | Yields _ _ => [requestOf a]
  end.

Definition received (svc : service) : list chunk :=
  match svc with
  | ClientThrows | OpenThrows => []
  | Yields chunks _ => chunks
  end.

Definition succeeds (svc : service) : bool :=
  match svc with Yields _ StreamEnds => true | _ => false end.

Definition epilogue (svc : service) : list effect :=
  if succeeds svc then [TriggerConfetti; SetLoading false]
  else [ConsoleError; SetToast MSG_FAILED; SetLoading false].

(** A store that holds a request and nothing else, for concrete runs. *)
Definition sample (inL outL code : string) : Store :=
  mkStore (mkApp (lit inL) (lit outL) (lit code) [] false []) [] [].

(** ** The handler between its suspension points

    [handleTranslate] is an [async] function: it runs from the click to the
    [await] of line 202, and then from one delivery of the stream to the
    next.  A session holds the state cells, the cells as the last committed
    render saw them, and the invocations of the handler that are
    suspended, each with its own accumulator; the environment delivers the
    events.

    The handlers and the props of the buttons belong to a render: the
    [disabled] of the Apply button is the [loading] of that render, and the
    handler reads [inputCode], [inputLanguage] and [outputLanguage] from
    it.  The setters write the state cells, and a render commits them. *)

Module Session.

Inductive phase := AwaitingOpen | AwaitingChunk.

Record invocation := mkInvocation {
  at_phase : phase;
  acc : jsstring
}.

Record session := mkSession {
  cells : AppState;
  rendered : AppState;
  pending : list invocation;
  trace : list effect
}.

Inductive event :=
| ClickApply (clientOk : bool)
| Render
| Opened (i : nat)
| OpenFailed (i : nat)
| ChunkArrived (i : nat) (c : chunk)
| StreamEnded (i : nat)
| StreamFailed (i : nat).

Fixpoint replaceAt {A} (i : nat) (x : A) (l : list A) : list A :=
  match l, i with
  | [], _ => []
  | _ :: r, O => x :: r
  | y :: r, S j => y :: replaceAt j x r
  end.

Fixpoint removeAt {A} (i : nat) (l : list A) : list A :=
  match l, i with
  | [], _ => []
  | _ :: r, O => r
  | y :: r, S j => y :: removeAt j r
  end.

(** The synchronous part of the handler, lines 171-208: it reads the
    request from the render it belongs to and writes the state cells;
    [clientOk] tells whether the constructor of the client returns.  There
    is no test of [loading] in it. *)
Definition start (s : session) (clientOk : bool) : session :=
  let r := rendered s in
  let a := cells s in
  if negb (truthy (trim (inputCode r))) then
    mkSession (withToast MSG_EMPTY a) r (pending s)
              (trace s ++ [SetToast MSG_EMPTY])
  else if strictEq (inputLanguage r) (outputLanguage r)
          && negb (strictEq (inputLanguage r) NATURAL_LANGUAGE) then
    mkSession (withToast MSG_SAME a) r (pending s)
              (trace s ++ [SetToast MSG_SAME])
  else if clientOk then
    mkSession (withOutputCode [] (withLoading true a)) r
              (pending s ++ [mkInvocation AwaitingOpen []])
              (trace s ++
               [SetLoading true; SetOutputCode [];
                GenerateContentStream MODEL
                  (buildPrompt (inputLanguage r) (outputLanguage r) (inputCode r))
                  (buildSystemInstruction (outputLanguage r))])
  else
    mkSession (withLoading false
                 (withToast MSG_FAILED
                    (withOutputCode [] (withLoading true a))))
              r (pending s)
              (trace s ++
               [SetLoading true; SetOutputCode [];
                ConsoleError; SetToast MSG_FAILED; SetLoading false]).

(** Lines 230-235: [catch] and [finally] of invocation [i]. *)
Definition fail (s : session) (i : nat) : session :=
  mkSession (withLoading false (withToast MSG_FAILED (cells s)))
            (rendered s)
            (removeAt i (pending s))
            (trace s ++ [ConsoleError; SetToast MSG_FAILED; SetLoading false]).

Definition step (s : session) (ev : event) : session :=
  match ev with
  | ClickApply clientOk =>
      (* line 308: the button is disabled when the render had [loading] *)
      if loading (rendered s) then s else start s clientOk
  | Render =>
      mkSession (cells s) (cells s) (pending s) (trace s)
  | Opened i =>
      match nth_error (pending s) i with
      | Some (mkInvocation AwaitingOpen _) =>
          mkSession (cells s) (rendered s)
                    (replaceAt i (mkInvocation AwaitingChunk []) (pending s))
                    (trace s)
      | _ => s
      end
  | OpenFailed i =>
      match nth_error (pending s) i with
      | Some (mkInvocation AwaitingOpen _) => fail s i
      | _ => s
      end
  | ChunkArrived i c =>
      match nth_error (pending s) i with
      | Some (mkInvocation AwaitingChunk fullText) =>
          let text := textOrEmpty c in
          let fullText := fullText ++ text in
          mkSession (withOutputCode (displayCode fullText) (cells s))
                    (rendered s)
                    (replaceAt i (mkInvocation AwaitingChunk fullText) (pending s))
                    (trace s ++ [SetOutputCode (displayCode fullText)])
      | _ => s
      end
  | StreamEnded i =>
      match nth_error (pending s) i with
      | Some (mkInvocation AwaitingChunk _) =>
          mkSession (withLoading false (cells s)) (rendered s)
                    (removeAt i (pending s))
                    (trace s ++ [TriggerConfetti; SetLoading false])
      | _ => s
      end
  | StreamFailed i =>
      match nth_error (pending s) i with
      | Some (mkInvocation AwaitingChunk _) => fail s i
      | _ => s
      end
  end.

Definition steps (s : session) (evs : list event) : session :=
  fold_left step evs s.

(** The page as it is first rendered (lines 122-127). *)
Definition initial : session :=
  mkSession (mkApp (lit "JavaScript") (lit "Python") [] [] false [])
            (mkApp (lit "JavaScript") (lit "Python") [] [] false [])
            [] [].

(** What the rest of the page does between two events (the language
    pickers, the editor, Insert, Dispatch, the toast timer): it writes the
    cells of the inputs and of the notice, and touches neither [loading]
    nor [outputCode]. *)
Definition edit (inLang outLang code notice : jsstring) (s : session)
    : session :=
  mkSession (mkApp inLang outLang code (outputCode (cells s))
                   (loading (cells s)) notice)
            (rendered s) (pending s) (trace s).

(** A session reached from the first render by events and edits, in any
    order: also with several events between two renders. *)
Inductive reachable : session -> Prop :=
| reach_initial : reachable initial
| reach_step s ev : reachable s -> reachable (step s ev)
| reach_edit s i o c n : reachable s -> reachable (edit i o c n s).

(** A session reached with every click on Apply rendered before the next
    event. *)
Inductive promptly : session -> Prop :=
| prompt_initial : promptly initial
| prompt_click s ok :
    promptly s -> promptly (step (step s (ClickApply ok)) Render)
| prompt_step s ev :
    promptly s -> (forall ok, ev <> ClickApply ok) -> promptly (step s ev)
| prompt_edit s i o c n : promptly s -> promptly (edit i o c n s).



(** While [loading] is false no invocation is suspended, and while it is
    true exactly one is, and the render shows it. *)
Definition oneAtATime (s : session) : Prop :=
  loading (cells s) = false /\ pending s = []
  \/ loading (cells s) = true /\ loading (rendered s) = true
     /\ exists inv, pending s = [inv].

End Session.

(** ** The other handlers of the page *)

Definition MSG_INSERTED : jsstring := lit "Clipboard content inserted.".
Definition MSG_CLIPBOARD : jsstring := lit "Failed to read clipboard.".
Definition MSG_NOTHING : jsstring := lit "Nothing to export.".
Definition MSG_DISPATCHED : jsstring := lit "File dispatched successfully.".

Definition withInputLanguage (l : jsstring) (a : AppState) : AppState :=
  mkApp l (outputLanguage a) (inputCode a) (outputCode a) (loading a) (toast a).

Definition withOutputLanguage (l : jsstring) (a : AppState) : AppState :=
  mkApp (inputLanguage a) l (inputCode a) (outputCode a) (loading a) (toast a).

Definition withInputCode (c : jsstring) (a : AppState) : AppState :=
  mkApp (inputLanguage a) (outputLanguage a) c (outputCode a) (loading a)
        (toast a).

(** [s.toLowerCase()], on the code units below 128: the letters A-Z go to
    a-z and nothing else moves.  The handler applies it to the output
    language only, a member of [LANGUAGES], all of them ASCII; the
    properties below are stated for such strings. *)
Definition isAscii (c : char16) : bool := (c <? 128)%N.

Definition isUpper (c : char16) : bool := ((65 <=? c) && (c <=? 90))%N.

Definition toLowerCaseUnit (c : char16) : char16 :=
  if isUpper c then (c + 32)%N else c.

Definition toLowerCase (s : jsstring) : jsstring := map toLowerCaseUnit s.

(** [s.replace(/\s/g, '_')]: the class [\s] is the white space and line
    terminators [trim] removes; every such code unit becomes an
    underscore. *)
Definition UNDERSCORE : char16 := 95%N.

Definition replaceSpaces (s : jsstring) : jsstring :=
  map (fun c => if isWhiteSpace c then UNDERSCORE else c) s.

(** Line 257: the name of the exported file. *)
Definition exportName (outputLanguage : jsstring) : jsstring :=
  lit "axis_export." ++ replaceSpaces (toLowerCase outputLanguage).

(** Line 253: [new Blob([outputCode])] holds the UTF-8 encoding of the
    string.  The code units are first read as scalar values: a high
    surrogate followed by a low one is one code point above U+FFFF, and a
    surrogate without its partner becomes U+FFFD. *)
Definition isHighSurrogate (c : char16) : bool :=
  ((55296 <=? c) && (c <=? 56319))%N.

Definition isLowSurrogate (c : char16) : bool :=
  ((56320 <=? c) && (c <=? 57343))%N.

Definition REPLACEMENT : N := 65533%N.

Fixpoint scalarValues (s : jsstring) : list N :=
  match s with
  | [] => []
  | c :: r =>
      if isHighSurrogate c then
        match r with
        | d :: r' =>
            if isLowSurrogate d then
              (65536 + (c - 55296) * 1024 + (d - 56320))%N :: scalarValues r'
            else REPLACEMENT :: scalarValues r
        | [] => [REPLACEMENT]
        end
      else if isLowSurrogate c then REPLACEMENT :: scalarValues r
      else c :: scalarValues r
  end.

(** The bytes of one scalar value: one to four of them. *)
Definition utf8 (cp : N) : list N :=
  (if cp <? 128 then [cp]
   else if cp <? 2048 then [192 + cp / 64; 128 + cp mod 64]
   else if cp <? 65536 then
     [224 + cp / 4096; 128 + (cp / 64) mod 64; 128 + cp mod 64]
   else
     [240 + cp / 262144; 128 + (cp / 4096) mod 64; 128 + (cp / 64) mod 64;
      128 + cp mod 64])%N.

Definition utf8Encode (s : jsstring) : list N :=
  flat_map utf8 (scalarValues s).

(** The file the browser is asked to save: its name and its bytes. *)
Record download := mkDownload {
  filename : jsstring;
  content : list N
}.

(** Lines 248-263: [handleDispatch].  It reads [outputCode] and
    [outputLanguage] from the render it belongs to and writes the notice
    to the state cells [a]; the result is the new cells and the file
    saved, if any. *)
Definition handleDispatch (render a : AppState) : AppState * option download :=
  if negb (truthy (outputCode render)) then
    (withToast MSG_NOTHING a, None)
  else
    (withToast MSG_DISPATCHED a,
     Some (mkDownload (exportName (outputLanguage render))
                      (utf8Encode (outputCode render)))).

(** Lines 238-246: what [handleInsert] does once the read of the clipboard
    has settled, with the text read or with nothing when the read failed. *)
Definition handleInsert (clipboard : option jsstring) (a : AppState)
    : AppState :=
  match clipboard with
  | Some text => withToast MSG_INSERTED (withInputCode text a)
  | None => withToast MSG_CLIPBOARD a
  end.

Definition isLoadingOn (e : effect) : bool :=
  match e with SetLoading true => true | _ => false end.

Definition isLoadingOff (e : effect) : bool :=
  match e with SetLoading false => true | _ => false end.

Definition isConfetti (e : effect) : bool :=
  match e with TriggerConfetti => true | _ => false end.

(** ** The page: every control of [App]

    The session of the translate handler, the two language pickers (lines
    46-90), the editor of the input (lines 92-117, 333-338), the Insert and
    Dispatch buttons (lines 305-319) and the toast (lines 31-44, 368).
    What a control offers and what its handler reads is what the last
    committed render gave it; the handlers write the state cells. *)

Module Page.

Record page := mkPage {
  sess : Session.session;
  (* [isOpen] of the two pickers: the state cell and its value in the
     last committed render *)
  inputOpen : bool;
  outputOpen : bool;
  inputShown : bool;
  outputShown : bool;
  clipboardReads : nat;
  downloads : list download
}.

(** Where a [mousedown] lands. *)
Inductive target := InInputSelect | InOutputSelect | Elsewhere.

Inductive event :=
| Translate (ev : Session.event)
| ToggleInput
| ToggleOutput
| PickInput (i : nat)
| PickOutput (i : nat)
| MouseDown (t : target)
| TypeCode (value : jsstring)
| ClickInsert
| ClipboardResolved (text : jsstring)
| ClipboardRejected
| ClickDispatch
| ToastTimeout.

Definition setCells (a : AppState) (p : page) : page :=
  mkPage (Session.mkSession a (Session.rendered (sess p))
                            (Session.pending (sess p))
                            (Session.trace (sess p)))
         (inputOpen p) (outputOpen p) (inputShown p) (outputShown p)
         (clipboardReads p) (downloads p).

Definition step (p : page) (ev : event) : page :=
  let a := Session.cells (sess p) in
  let r := Session.rendered (sess p) in
  match ev with
  | Translate Session.Render =>
      (* a render of [App] renders the pickers too *)
      mkPage (Session.step (sess p) Session.Render)
             (inputOpen p) (outputOpen p) (inputOpen p) (outputOpen p)
             (clipboardReads p) (downloads p)
  | Translate e =>
      mkPage (Session.step (sess p) e) (inputOpen p) (outputOpen p)
             (inputShown p) (outputShown p)
             (clipboardReads p) (downloads p)
  | ToggleInput =>
      (* line 63: [setIsOpen(!isOpen)] *)
      mkPage (sess p) (negb (inputShown p)) (outputOpen p)
             (inputShown p) (outputShown p)
             (clipboardReads p) (downloads p)
  | ToggleOutput =>
      mkPage (sess p) (inputOpen p) (negb (outputShown p))
             (inputShown p) (outputShown p)
             (clipboardReads p) (downloads p)
  | PickInput i =>
      (* lines 70-85: the options exist when the picker was rendered open *)
      if inputShown p then
        match nth_error LANGUAGES i with
        | Some lang =>
            let q := setCells (withInputLanguage lang a) p in
            mkPage (sess q) false (outputOpen q)
                   (inputShown q) (outputShown q)
                   (clipboardReads q) (downloads q)
        | None => p
        end
      else p
  | PickOutput i =>
      if outputShown p then
        match nth_error LANGUAGES i with
        | Some lang =>
            let q := setCells (withOutputLanguage lang a) p in
            mkPage (sess q) (inputOpen q) false
                   (inputShown q) (outputShown q)
                   (clipboardReads q) (downloads q)
        | None => p
        end
      else p
  | MouseDown t =>
      (* lines 51-55: each picker closes on a [mousedown] outside of it *)
      mkPage (sess p)
             (match t with InInputSelect => inputOpen p | _ => false end)
             (match t with InOutputSelect => outputOpen p | _ => false end)
             (inputShown p) (outputShown p)
             (clipboardReads p) (downloads p)
  | TypeCode value =>
      (* line 337: the editor is read-only when rendered with [loading] *)
      if loading r then p else setCells (withInputCode value a) p
  | ClickInsert =>
      (* line 305: disabled when rendered with [loading]; line 240: the
         read is awaited *)
      if loading r then p
      else mkPage (sess p) (inputOpen p) (outputOpen p)
                  (inputShown p) (outputShown p)
                  (S (clipboardReads p)) (downloads p)
  | ClipboardResolved text =>
      match clipboardReads p with
      | O => p
      | S n =>
          let q := setCells (handleInsert (Some text) a) p in
          mkPage (sess q) (inputOpen q) (outputOpen q)
                 (inputShown q) (outputShown q) n (downloads q)
      end
  | ClipboardRejected =>
      match clipboardReads p with
      | O => p
      | S n =>
          let q := setCells (handleInsert None a) p in
          mkPage (sess q) (inputOpen q) (outputOpen q)
                 (inputShown q) (outputShown q) n (downloads q)
      end
  | ClickDispatch =>
      (* line 317: disabled when rendered without output or with [loading] *)
      if negb (truthy (outputCode r)) || loading r then p
      else
        let q := setCells (fst (handleDispatch r a)) p in
        mkPage (sess q) (inputOpen q) (outputOpen q)
               (inputShown q) (outputShown q) (clipboardReads q)
               (downloads q
                  ++ match snd (handleDispatch r a) with
                     | Some d => [d]
                     | None => []
                     end)
  | ToastTimeout =>
      (* lines 32-35, 368: the toast is mounted when rendered with a
         notice *)
      if truthy (toast r) then setCells (withToast [] a) p else p
  end.

Definition steps (p : page) (evs : list event) : page :=
  fold_left step evs p.

Definition initial : page :=
  mkPage Session.initial false false false false 0 [].

Inductive reachable : page -> Prop :=
| reach_initial : reachable initial
| reach_step p ev : reachable p -> reachable (step p ev).

(** A page reached with every click on Apply rendered before the next
    event. *)
Inductive promptly : page -> Prop :=
| prompt_initial : promptly initial
| prompt_click p ok :
    promptly p ->
    promptly (step (step p (Translate (Session.ClickApply ok)))
                   (Translate Session.Render))
| prompt_step p ev :
    promptly p -> (forall ok, ev <> Translate (Session.ClickApply ok)) ->
    promptly (step p ev).

(** What a translation in flight reads and writes. *)
Definition view (s : Session.session)
    : jsstring * bool * list Session.invocation * list effect :=
  (outputCode (Session.cells s), loading (Session.cells s),
   Session.pending s, Session.trace s).

Definition translateEvents (evs : list event) : list Session.event :=
  flat_map (fun ev => match ev with Translate e => [e] | _ => [] end) evs.

(** The notices the page can show. *)
Definition NOTICES : list jsstring :=
  [[]; MSG_EMPTY; MSG_SAME; MSG_FAILED; MSG_INSERTED; MSG_CLIPBOARD;
   MSG_DISPATCHED].

End Page.

(** ** Invariants of a session *)

(** The output cell shows the display value of what the suspended
    invocation has accumulated. *)
Definition tracksAccumulator (s : Session.session) : Prop :=
  forall inv, In inv (Session.pending s) ->
    outputCode (Session.cells s) = displayCode (Session.acc inv)
    /\ (Session.at_phase inv = Session.AwaitingOpen -> Session.acc inv = []).

(** Every [setLoading(true)] of the trace but those of the suspended
    invocations has been followed by its [setLoading(false)]. *)
Definition loadingBalanced (s : Session.session) : Prop :=
  length (filter isLoadingOn (Session.trace s))
  = length (filter isLoadingOff (Session.trace s))
    + length (Session.pending s).

(** * Properties *)

(** ** Strings *)

Section StringFacts.

Lemma strictEq_true_iff (a b : jsstring) : strictEq a b = true <-> a = b.
Proof.
  revert b; induction a as [|x a IH]; intros [|y b]; simpl;
    try (split; (reflexivity || discriminate)).
  rewrite andb_true_iff, N.eqb_eq, IH.
  split; [intros [-> ->]; reflexivity | intros H; inversion H; auto].
Qed.

Lemma strictEq_refl (a : jsstring) : strictEq a a = true.
Proof. apply strictEq_true_iff; reflexivity. Qed.

Lemma strictEq_false_iff (a b : jsstring) : strictEq a b = false <-> a <> b.
Proof.
  rewrite <- strictEq_true_iff. destruct (strictEq a b); split; congruence.
Qed.

Lemma startsWith_iff (s p : jsstring) :
  startsWith s p = true <-> exists r, s = p ++ r.
Proof.
  revert s; induction p as [|y p IH]; intros s; simpl.
  - split; [exists s; reflexivity | reflexivity].
  - destruct s as [|x s].
    + split; [discriminate | intros [r H]; discriminate].
    + rewrite andb_true_iff, N.eqb_eq, IH. split.
      * intros [-> [r ->]]. exists r; reflexivity.
      * intros [r H]. inversion H; subst. split; [reflexivity | exists r; reflexivity].
Qed.

Lemma dropWhile_split (p : char16 -> bool) (s : jsstring) :
  exists taken,
    s = taken ++ dropWhile p s /\ forallb p taken = true
    /\ match dropWhile p s with c :: _ => p c = false | [] => True end.
Proof.
  induction s as [|c s (taken & E & A & M)]; simpl.
  - exists []; auto.
  - destruct (p c) eqn:Hc.
    + exists (c :: taken); simpl. rewrite Hc, A. rewrite <- E. auto.
    + exists []; simpl; auto.
Qed.

Lemma dropWhile_all (p : char16 -> bool) (s : jsstring) :
  dropWhile p s = [] <-> forallb p s = true.
Proof.
  induction s as [|c s IH]; simpl; [tauto|].
  destruct (p c); simpl; [exact IH | split; discriminate].
Qed.

Lemma forallb_rev (p : char16 -> bool) (s : jsstring) :
  forallb p (rev s) = forallb p s.
Proof.
  induction s as [|c s IH]; simpl; auto.
  rewrite forallb_app, IH; simpl. rewrite andb_true_r, andb_comm; reflexivity.
Qed.

(** [trim] yields the empty string exactly on the strings made of white
    space only. *)
Lemma trim_empty_iff (s : jsstring) :
  trim s = [] <-> forallb isWhiteSpace s = true.
Proof.
  unfold trim. split.
  - intros H. apply (f_equal (@rev _)) in H. rewrite rev_involutive in H.
    simpl in H. apply dropWhile_all in H. rewrite forallb_rev in H.
    destruct (dropWhile_split isWhiteSpace s) as (taken & E & A & _).
    rewrite E, forallb_app, A, H; reflexivity.
  - intros H. apply dropWhile_all in H. rewrite H; reflexivity.
Qed.

Lemma truthy_false_iff (s : jsstring) : truthy s = false <-> s = [].
Proof. destruct s; simpl; split; congruence. Qed.

End StringFacts.

(** ** The cleanup of fence markers *)

Section Fences.

(** A closing fence at the very end is removed, and only it. *)
Lemma replaceCloseFence_at_end (r : jsstring) :
  replaceCloseFence (r ++ FENCE) = r.
Proof.
  induction r as [|c r IH].
  - reflexivity.
  - change ((c :: r) ++ FENCE) with (c :: (r ++ FENCE)).
    cbn [replaceCloseFence].
    assert (N : strictEq (c :: r ++ FENCE) FENCE = false).
    { apply strictEq_false_iff. intros H.
      apply (f_equal (@length _)) in H. simpl in H.
      rewrite length_app in H. simpl in H. lia. }
    rewrite N, IH. reflexivity.
Qed.

(** Every text either ends with the fence, which is then cut off, or does
    not, and then comes back as it is. *)
Lemma replaceCloseFence_cases (s : jsstring) :
  (exists r, s = r ++ FENCE /\ replaceCloseFence s = r)
  \/ ((forall r, s <> r ++ FENCE) /\ replaceCloseFence s = s).
Proof.
  induction s as [|c s IH].
  - right. split; [|reflexivity].
    intros r H. apply (f_equal (@length _)) in H.
    rewrite length_app in H. simpl in H. lia.
  - cbn [replaceCloseFence].
    destruct (strictEq (c :: s) FENCE) eqn:E.
    + apply strictEq_true_iff in E. left. exists []. split; [exact E | reflexivity].
    + apply strictEq_false_iff in E.
      destruct IH as [(r & -> & Hr) | (Hn & Hs)].
      * left. exists (c :: r). rewrite Hr. split; reflexivity.
      * right. rewrite Hs. split; [|reflexivity].
        intros [|c' r] H; simpl in H.
        -- apply E. exact H.
        -- inversion H; subst. eapply Hn; reflexivity.
Qed.

Lemma replaceCloseFence_not_at_end (s : jsstring) :
  (forall r, s <> r ++ FENCE) -> replaceCloseFence s = s.
Proof.
  intros H. destruct (replaceCloseFence_cases s) as [(r & E & _) | (_ & E)].
  - exfalso. exact (H r E).
  - exact E.
Qed.

(** What the opening expression takes away: the fence, the longest run of
    word characters, and a line feed when one follows. *)
Lemma replaceOpenFence_split (s : jsstring) :
  startsWith s FENCE = true ->
  exists tag nl,
    s = FENCE ++ tag ++ nl ++ replaceOpenFence s
    /\ forallb isWordChar tag = true
    /\ (nl = [] \/ nl = [LF])
    /\ (nl = [] ->
        match replaceOpenFence s with
        | c :: _ => isWordChar c = false /\ c <> LF
        | [] => True
        end).
Proof.
  intros H. unfold replaceOpenFence. rewrite H.
  apply startsWith_iff in H. destruct H as [r ->].
  rewrite skipn_app, skipn_all, Nat.sub_diag, app_nil_l, skipn_O.
  destruct (dropWhile_split isWordChar r) as (tag & E & A & M).
  exists tag.
  destruct (dropWhile isWordChar r) as [|c rest] eqn:D.
  - exists []. simpl. rewrite <- E at 1. auto.
  - simpl. destruct (N.eqb_spec c LF) as [->|Hc].
    + exists [LF]. repeat split; auto; try discriminate.
      simpl. rewrite E at 1. reflexivity.
    + exists []. simpl. rewrite <- E at 1. auto.
Qed.

Lemma replaceOpenFence_no_match (s : jsstring) :
  startsWith s FENCE = false -> replaceOpenFence s = s.
Proof.
  intros H. unfold replaceOpenFence. rewrite H. reflexivity.
Qed.

(** The display value is the accumulated text without an opening part and
    a closing part, each absent or one fence. *)
Lemma displayCode_shape (t : jsstring) :
  exists opening closing,
    t = opening ++ displayCode t ++ closing
    /\ (startsWith t FENCE = false /\ opening = []
        \/ startsWith t FENCE = true
           /\ exists tag nl,
                opening = FENCE ++ tag ++ nl
                /\ forallb isWordChar tag = true
                /\ (nl = [] \/ nl = [LF])
                /\ (nl = [] ->
                    match displayCode t ++ closing with
                    | c :: _ => isWordChar c = false /\ c <> LF
                    | [] => True
                    end))
    /\ (closing = FENCE
        \/ closing = [] /\ forall r, displayCode t <> r ++ FENCE).
Proof.
  unfold displayCode.
  destruct (startsWith t FENCE) eqn:S.
  - destruct (replaceOpenFence_split t S) as (tag & nl & E & A & L & M).
    destruct (replaceCloseFence_cases (replaceOpenFence t))
      as [(r & Er & Hr) | (Hn & Hs)].
    + exists (FENCE ++ tag ++ nl), FENCE. rewrite Hr.
      split; [|split].
      * rewrite E at 1. rewrite Er. rewrite <- !app_assoc. reflexivity.
      * right. split; [reflexivity|]. exists tag, nl.
        rewrite <- Er. auto.
      * left; reflexivity.
    + exists (FENCE ++ tag ++ nl), []. rewrite Hs.
      split; [|split].
      * rewrite app_nil_r. rewrite E at 1. rewrite <- !app_assoc. reflexivity.
      * right. split; [reflexivity|]. exists tag, nl.
        rewrite app_nil_r. auto.
      * right. auto.
  - destruct (replaceCloseFence_cases t) as [(r & Er & Hr) | (Hn & Hs)].
    + exists [], FENCE. rewrite Hr. simpl. auto.
    + exists [], []. rewrite Hs, app_nil_r. simpl. auto.
Qed.

Lemma displayCode_nil : displayCode [] = [].
Proof. reflexivity. Qed.

End Fences.

(** ** Runs of the handler *)

Ltac unfold_run :=
  unfold handleTranslate, newGoogleGenAI, generateContentStream, setToast,
    setLoading,
    setOutputCode, triggerConfetti, consoleError, assignFullText,
    readFullText, emit, updApp, tryFinally, tryCatch, bind, ret, throw.

Section Runs.

Lemma accumulated_cons (c : chunk) (rest : list chunk) (k : nat) :
  accumulated (c :: rest) (S k) = textOrEmpty c ++ accumulated rest k.
Proof. reflexivity. Qed.

Lemma accumulated_all (chunks : list chunk) :
  accumulated chunks (length chunks) = concat (map textOrEmpty chunks).
Proof. unfold accumulated. rewrite firstn_all. reflexivity. Qed.

Lemma published_cons (start : jsstring) (c : chunk) (rest : list chunk) :
  published start (c :: rest)
  = SetOutputCode (displayCode (start ++ textOrEmpty c))
      :: published (start ++ textOrEmpty c) rest.
Proof.
  unfold published. cbn [length seq map].
  rewrite accumulated_cons. unfold accumulated at 1. cbn [firstn map concat].
  rewrite app_nil_r. f_equal.
  rewrite <- seq_shift, map_map. apply map_ext. intros k.
  rewrite accumulated_cons, app_assoc. reflexivity.
Qed.

(** The loop, run in one go. *)
Lemma consume_run (chunks : list chunk) (fin : ending) (st : Store) :
  consume chunks fin st
  = (match fin with StreamEnds => Normal tt | StreamThrows => Thrown end,
     mkStore
       (match chunks with
        | [] => app st
        | _ :: _ =>
            withOutputCode
              (displayCode (fullText st ++ concat (map textOrEmpty chunks)))
              (app st)
        end)
       (fullText st ++ concat (map textOrEmpty chunks))
       (log st ++ published (fullText st) chunks)).
Proof.
  revert st. induction chunks as [|c rest IH]; intros st.
  - destruct st as [a f l]; destruct fin; simpl; unfold ret, throw;
      rewrite !app_nil_r; reflexivity.
  - cbn [consume]. unfold_run. cbn [app fullText log].
    rewrite IH. cbn [app fullText log map concat].
    rewrite published_cons, <- !app_assoc. cbn [List.app].
    destruct rest as [|c' rest']; [|reflexivity].
    simpl. rewrite !app_nil_r. reflexivity.
Qed.

Lemma passesValidation_split (a : AppState) :
  passesValidation a = true ->
  negb (truthy (trim (inputCode a))) = false
  /\ strictEq (inputLanguage a) (outputLanguage a)
     && negb (strictEq (inputLanguage a) NATURAL_LANGUAGE) = false.
Proof.
  unfold passesValidation. rewrite andb_true_iff, negb_true_iff.
  intros [-> ->]. auto.
Qed.

Lemma handleTranslate_valid (svc : service) (st : Store) :
  passesValidation (app st) = true ->
  handleTranslate svc st
  = (Normal tt,
     mkStore
       (mkApp (inputLanguage (app st)) (outputLanguage (app st))
              (inputCode (app st))
              (displayCode (concat (map textOrEmpty (received svc))))
              false
              (if succeeds svc then toast (app st) else MSG_FAILED))
       (match svc with
        | ClientThrows | OpenThrows => fullText st
        | Yields chunks _ => concat (map textOrEmpty chunks)
        end)
       (log st ++ [SetLoading true; SetOutputCode []]
          ++ requests svc (app st)
          ++ published [] (received svc) ++ epilogue svc)).
Proof.
  intros V. destruct (passesValidation_split _ V) as [V1 V2].
  destruct st as [[inL outL code out ld tst] ft lg]. cbn [app inputCode
    inputLanguage outputLanguage fullText log toast] in *.
  unfold handleTranslate.
  cbn [app inputCode inputLanguage outputLanguage]. rewrite V1, V2.
  destruct svc as [| |chunks fin].
  - unfold_run. simpl. rewrite <- !app_assoc. reflexivity.
  - unfold_run. simpl. rewrite <- !app_assoc. reflexivity.
  - unfold_run. cbn [fst snd app fullText log]. rewrite consume_run.
    cbn [app fullText log].
    unfold requests, requestOf, epilogue, received, succeeds.
    cbn [inputLanguage outputLanguage inputCode app_nil_l List.app].
    destruct fin, chunks as [|c cs]; simpl;
      rewrite <- ?app_assoc; simpl; rewrite <- ?app_assoc; reflexivity.
Qed.

Lemma handleTranslate_invalid (svc : service) (st : Store) :
  passesValidation (app st) = false ->
  let msg :=
    if truthy (trim (inputCode (app st))) then MSG_SAME else MSG_EMPTY in
  handleTranslate svc st
  = (Normal tt,
     mkStore (withToast msg (app st)) (fullText st) (log st ++ [SetToast msg])).
Proof.
  unfold passesValidation, handleTranslate. intros V.
  destruct (truthy (trim (inputCode (app st)))); simpl in *.
  - apply negb_false_iff in V. rewrite V. reflexivity.
  - reflexivity.
Qed.

Lemma effectsOf_appended (m : Run unit) (st : Store) (c : completion unit)
    (a : AppState) (f : jsstring) (es : list effect) :
  m st = (c, mkStore a f (log st ++ es)) -> effectsOf m st = es.
Proof.
  intros E. unfold effectsOf, finalStore. rewrite E. cbn [snd log].
  rewrite skipn_app, skipn_all, Nat.sub_diag. reflexivity.
Qed.

End Runs.


(** ** Sessions *)

Section Sessions.

Import Session.

Lemma nth_error_singleton {A} (x : A) (i : nat) :
  nth_error [x] i = match i with O => Some x | S _ => None end.
Proof. destruct i as [|[|i]]; reflexivity. Qed.

Ltac solve_oneAtATime L LR P :=
  unfold oneAtATime;
  cbn [step cells rendered pending loading withLoading withToast
       withOutputCode];
  rewrite ?L, ?LR, ?P; cbn [replaceAt removeAt List.app];
  first [ left; split; reflexivity
        | right; split; [reflexivity
                        | split; [reflexivity | eexists; reflexivity]] ].

(** Deliveries and renders keep the one invocation. *)
Lemma nonclick_oneAtATime (s : session) (ev : event) :
  oneAtATime s -> (forall ok, ev <> ClickApply ok) ->
  oneAtATime (step s ev).
Proof.
  intros O N.
  destruct ev as [ok| |i|i|i c|i|i]; [exfalso; exact (N ok eq_refl)|..];
    destruct O as [[L P] | (L & LR & inv & P)];
    unfold step, fail; rewrite ?P;
    try solve_oneAtATime L LR P;
    try (destruct i; cbn [nth_error]; solve_oneAtATime L LR P);
    rewrite nth_error_singleton;
    (destruct i as [|i]; [|solve_oneAtATime L LR P]);
    destruct inv as [[|] a]; solve_oneAtATime L LR P.
Qed.

(** A click that is rendered at once starts an invocation only when none
    is suspended. *)
Lemma click_render_oneAtATime (s : session) (ok : bool) :
  oneAtATime s -> oneAtATime (step (step s (ClickApply ok)) Render).
Proof.
  intros O. unfold step at 2.
  destruct (loading (rendered s)) eqn:R.
  - apply nonclick_oneAtATime; [exact O | discriminate].
  - destruct O as [[L P] | (L & LR & inv & P)]; [|congruence].
    unfold start.
    destruct (negb (truthy (trim (inputCode (rendered s)))));
      [solve_oneAtATime L R P|].
    destruct (strictEq _ _ && negb _); [solve_oneAtATime L R P|].
    destruct ok; solve_oneAtATime L R P.
Qed.

Lemma edit_oneAtATime (s : session) (i o c n : jsstring) :
  oneAtATime s -> oneAtATime (edit i o c n s).
Proof.
  intros [[L P] | (L & LR & inv & P)]; [left | right]; simpl; eauto.
Qed.

Lemma promptly_oneAtATime (s : session) : promptly s -> oneAtATime s.
Proof.
  induction 1 as [|s ok _ IH|s ev _ IH N|s i o c n _ IH].
  - left. auto.
  - apply click_render_oneAtATime; assumption.
  - apply nonclick_oneAtATime; assumption.
  - apply edit_oneAtATime; assumption.
Qed.

Lemma promptly_reachable (s : session) : promptly s -> reachable s.
Proof.
  induction 1 as [|s ok _ IH|s ev _ IH N|s i o c n _ IH].
  - apply reach_initial.
  - do 2 apply reach_step. exact IH.
  - apply reach_step. exact IH.
  - apply reach_edit. exact IH.
Qed.


Lemma steps_cons (s : session) (ev : event) (evs : list event) :
  steps s (ev :: evs) = steps (step s ev) evs.
Proof. reflexivity. Qed.




End Sessions.
(** ** The stream consumer *)

Lemma textOrEmpty_string (f : jsstring) :
  textOrEmpty (mkChunk (TextString f)) = f.
Proof. destruct f; reflexivity. Qed.

Lemma concat_textOrEmpty_strings (frags : list jsstring) :
  concat (map textOrEmpty (map (fun f => mkChunk (TextString f)) frags))
  = concat frags.
Proof.
  induction frags as [|f frags IH]; [reflexivity|].
  cbn [map concat]. rewrite textOrEmpty_string, IH. reflexivity.
Qed.

Lemma consume_effects (chunks : list chunk) (fin : ending) (st : Store) :
  effectsOf (consume chunks fin) st = published (fullText st) chunks.
Proof. eapply effectsOf_appended. apply consume_run. Qed.

Lemma filter_isPublish_published (start : jsstring) (chunks : list chunk) :
  filter isPublish (published start chunks) = published start chunks.
Proof.
  unfold published. induction (seq 1 (length chunks)) as [|k ks IH];
    [reflexivity|]. cbn [map filter isPublish]. rewrite IH. reflexivity.
Qed.

Lemma filter_isStreamOpen_published (start : jsstring) (chunks : list chunk) :
  filter isStreamOpen (published start chunks) = [].
Proof.
  unfold published. induction (seq 1 (length chunks)) as [|k ks IH];
    [reflexivity|]. cbn [map filter isStreamOpen]. exact IH.
Qed.

Lemma length_published (start : jsstring) (chunks : list chunk) :
  length (published start chunks) = length chunks.
Proof. unfold published. rewrite length_map, length_seq. reflexivity. Qed.

(** C1.  For every fragment of the stream the value handed to
    [setOutputCode] is computed afresh from the whole text accumulated so
    far, and the accumulator itself keeps the unstripped text.  The display
    value is the accumulated text without one opening part (the three
    backticks, the word characters after them and a line feed when one
    follows; only when the text starts with the fence) and without one
    closing fence when the remaining text ends with it.  The accumulated
    text of three backticks, python, line feed, print(1), line feed and
    three backticks displays as print(1) and a line feed; three backticks,
    py, line feed and x = 1 displays as x = 1. *)
Theorem display_value_recomputed_per_fragment
    (chunks : list chunk) (fin : ending) (st : Store) :
  effectsOf (consume chunks fin) st
  = map (fun k =>
           SetOutputCode (displayCode (fullText st ++ accumulated chunks k)))
        (seq 1 (length chunks))
  /\ fullText (finalStore (consume chunks fin) st)
     = fullText st ++ accumulated chunks (length chunks)
  /\ (forall t : jsstring,
        exists opening closing,
          t = opening ++ displayCode t ++ closing
          /\ (startsWith t FENCE = false /\ opening = []
              \/ startsWith t FENCE = true
                 /\ exists tag nl,
                      opening = FENCE ++ tag ++ nl
                      /\ forallb isWordChar tag = true
                      /\ (nl = [] \/ nl = [LF])
                      /\ (nl = [] ->
                          match displayCode t ++ closing with
                          | c :: _ => isWordChar c = false /\ c <> LF
                          | [] => True
                          end))
          /\ (closing = FENCE
              \/ closing = [] /\ forall r, displayCode t <> r ++ FENCE))
  /\ displayCode (lit "```python" ++ [LF] ++ lit "print(1)" ++ [LF] ++ lit "```")
     = lit "print(1)" ++ [LF]
  /\ displayCode (lit "```py" ++ [LF] ++ lit "x = 1") = lit "x = 1".
Proof.
  split; [apply consume_effects|].
  split.
  { unfold finalStore. rewrite consume_run, accumulated_all. reflexivity. }
  split; [exact displayCode_shape|].
  split; reflexivity.
Qed.

(** C2.  After the fragments F1..Fn the accumulator is F1 ++ ... ++ Fn, and
    any other cutting of the same text into chunks gives the same
    accumulator. *)
Theorem accumulator_is_concatenation
    (frags : list jsstring) (fin : ending) (st : Store) :
  passesValidation (app st) = true ->
  fullText (finalStore
              (handleTranslate
                 (Yields (map (fun f => mkChunk (TextString f)) frags) fin))
              st)
  = concat frags
  /\ forall (chunks : list chunk) (fin' : ending),
       concat (map textOrEmpty chunks) = concat frags ->
       fullText (finalStore (handleTranslate (Yields chunks fin')) st)
       = concat frags.
Proof.
  intros V. unfold finalStore. split.
  - rewrite handleTranslate_valid by exact V. cbn [snd fullText].
    apply concat_textOrEmpty_strings.
  - intros chunks fin' E.
    rewrite handleTranslate_valid by exact V. exact E.
Qed.

Lemma accumulator_is_concatenation_witness :
  fullText (finalStore
              (handleTranslate
                 (Yields (map (fun f => mkChunk (TextString f))
                              [lit "de"; lit "f "; lit "g()"]) StreamEnds))
              (sample "JavaScript" "Python" "function g() {}"))
  = lit "def g()".
Proof.
  exact (proj1 (@accumulator_is_concatenation
                  [lit "de"; lit "f "; lit "g()"] StreamEnds
                  (sample "JavaScript" "Python" "function g() {}")
                  eq_refl)).
Defined.

(** C10.  A fragment whose text is absent, null or empty counts as the
    empty string: the accumulator stays as it is, and its display value is
    still published, once, before the loop goes on.  The loop publishes as
    many values as there are fragments. *)
Theorem empty_fragment_still_published
    (c : chunk) (rest : list chunk) (fin : ending) (st : Store) :
  (text c = TextUndefined \/ text c = TextNull \/ text c = TextString []) ->
  textOrEmpty c = []
  /\ consume (c :: rest) fin st
     = consume rest fin
         (mkStore (withOutputCode (displayCode (fullText st)) (app st))
                  (fullText st)
                  (log st ++ [SetOutputCode (displayCode (fullText st))]))
  /\ forall (chunks : list chunk) (st0 : Store),
       length (filter isPublish (effectsOf (consume chunks fin) st0))
       = length chunks.
Proof.
  intros H.
  assert (E : textOrEmpty c = []).
  { unfold textOrEmpty. destruct H as [-> | [-> | ->]]; reflexivity. }
  split; [exact E|]. split.
  - cbn [consume]. rewrite E. unfold_run. cbn [app fullText log].
    rewrite app_nil_r. reflexivity.
  - intros chunks st0.
    rewrite consume_effects, filter_isPublish_published.
    apply length_published.
Qed.

Lemma empty_fragment_still_published_witness :
  let st := mkStore (app (sample "JavaScript" "Python" "x")) (lit "ab```") [] in
  textOrEmpty (mkChunk TextUndefined) = []
  /\ consume [mkChunk TextUndefined] StreamEnds st
     = (Normal tt,
        mkStore (withOutputCode (lit "ab") (app st)) (lit "ab```")
                [SetOutputCode (lit "ab")])
  /\ length (filter isPublish
               (effectsOf
                  (consume [mkChunk (TextString (lit "a"));
                            mkChunk TextUndefined; mkChunk TextNull;
                            mkChunk (TextString [])]
                           StreamEnds)
                  st))
     = 4.
Proof.
  intros st.
  pose proof (@empty_fragment_still_published
                (mkChunk TextUndefined) [] StreamEnds st
                (or_introl eq_refl)) as (E & C & N).
  split; [exact E|]. split; [rewrite C; reflexivity|].
  exact (N [mkChunk (TextString (lit "a")); mkChunk TextUndefined;
            mkChunk TextNull; mkChunk (TextString [])] st).
Defined.

(** ** Validation *)

Lemma rejected_store (svc : service) (st : Store) (msg : jsstring) :
  handleTranslate svc st
  = (Normal tt,
     mkStore (withToast msg (app st)) (fullText st) (log st ++ [SetToast msg])) ->
  let st' := finalStore (handleTranslate svc) st in
  effectsOf (handleTranslate svc) st = [SetToast msg]
  /\ loading (app st') = loading (app st)
  /\ outputCode (app st') = outputCode (app st)
  /\ fullText st' = fullText st.
Proof.
  intros E. split; [eapply effectsOf_appended; exact E|].
  unfold finalStore. rewrite E. simpl. auto.
Qed.

Lemma same_language_fails_validation (a : AppState) :
  inputLanguage a = outputLanguage a ->
  inputLanguage a <> NATURAL_LANGUAGE ->
  passesValidation a = false.
Proof.
  intros E N. unfold passesValidation.
  rewrite <- E, strictEq_refl.
  apply strictEq_false_iff in N. rewrite N. simpl. apply andb_false_r.
Qed.

Lemma blank_fails_validation (a : AppState) :
  forallb isWhiteSpace (inputCode a) = true ->
  truthy (trim (inputCode a)) = false /\ passesValidation a = false.
Proof.
  intros W. apply trim_empty_iff in W. unfold passesValidation.
  rewrite W. auto.
Qed.

(** C5.  With equal input and output languages other than the sentinel,
    the handler returns at once with a notice (the one about the languages
    when the source text is not blank), opens no stream and leaves
    [loading] and the previous output as they were. *)
Theorem same_language_is_rejected (svc : service) (st : Store) :
  inputLanguage (app st) = outputLanguage (app st) ->
  inputLanguage (app st) <> NATURAL_LANGUAGE ->
  let st' := finalStore (handleTranslate svc) st in
  exists msg,
    (trim (inputCode (app st)) <> [] -> msg = MSG_SAME)
    /\ (trim (inputCode (app st)) = [] -> msg = MSG_EMPTY)
    /\ fst (handleTranslate svc st) = Normal tt
    /\ effectsOf (handleTranslate svc) st = [SetToast msg]
    /\ toast (app st') = msg
    /\ loading (app st') = loading (app st)
    /\ outputCode (app st') = outputCode (app st).
Proof.
  intros E N st'. subst st'.
  pose proof (handleTranslate_invalid svc st
                (same_language_fails_validation _ E N)) as R.
  cbv zeta in R.
  destruct (rejected_store _ _ R) as (Ef & L & O & _).
  exists (if truthy (trim (inputCode (app st))) then MSG_SAME else MSG_EMPTY).
  repeat split; try assumption.
  - intros T. destruct (trim (inputCode (app st))); [congruence | reflexivity].
  - intros ->. reflexivity.
  - rewrite R. reflexivity.
  - unfold finalStore. rewrite R. reflexivity.
Qed.

Lemma same_language_is_rejected_witness :
  exists msg,
    effectsOf (handleTranslate (Yields [] StreamEnds))
              (sample "Python" "Python" "print(1)")
    = [SetToast msg]
    /\ msg = MSG_SAME.
Proof.
  destruct (@same_language_is_rejected (Yields [] StreamEnds)
              (sample "Python" "Python" "print(1)") eq_refl
              ltac:(discriminate))
    as (msg & S & _ & _ & E & _).
  exists msg. split; [exact E | apply S; discriminate].
Defined.

(** C6.  With a source text that is empty or made of white space only,
    the handler returns at once with the notice about the missing code,
    opens no stream, and leaves [loading] and the previous output as they
    were. *)
Theorem blank_input_is_rejected (svc : service) (st : Store) :
  forallb isWhiteSpace (inputCode (app st)) = true ->
  let st' := finalStore (handleTranslate svc) st in
  trim (inputCode (app st)) = []
  /\ fst (handleTranslate svc st) = Normal tt
  /\ effectsOf (handleTranslate svc) st = [SetToast MSG_EMPTY]
  /\ toast (app st') = MSG_EMPTY
  /\ loading (app st') = loading (app st)
  /\ outputCode (app st') = outputCode (app st).
Proof.
  intros W st'. subst st'.
  destruct (blank_fails_validation _ W) as [T V].
  pose proof (handleTranslate_invalid svc st V) as R.
  cbv zeta in R. rewrite T in R.
  destruct (rejected_store _ _ R) as (Ef & L & O & _).
  repeat split; try assumption.
  - apply trim_empty_iff. exact W.
  - rewrite R. reflexivity.
  - unfold finalStore. rewrite R. reflexivity.
Qed.

Lemma blank_input_is_rejected_witness :
  effectsOf (handleTranslate (Yields [] StreamEnds))
            (mkStore (mkApp (lit "JavaScript") (lit "Python")
                            [32; 9; 10; 160; 32]%N (lit "old") false [])
                     [] [])
  = [SetToast MSG_EMPTY].
Proof.
  exact (proj1 (proj2 (proj2
    (@blank_input_is_rejected (Yields [] StreamEnds)
       (mkStore (mkApp (lit "JavaScript") (lit "Python")
                       [32; 9; 10; 160; 32]%N (lit "old") false [])
                [] [])
       eq_refl)))).
Defined.

(** C9.  The check of the source text comes first: a request with a blank
    source text and equal languages other than the sentinel gets the
    notice about the missing code, not the one about the languages; and
    every request that fails the validation gets exactly one notice and
    nothing else. *)
Theorem validation_order (svc : service) (st : Store) :
  (trim (inputCode (app st)) = [] ->
   inputLanguage (app st) = outputLanguage (app st) ->
   inputLanguage (app st) <> NATURAL_LANGUAGE ->
   effectsOf (handleTranslate svc) st = [SetToast MSG_EMPTY]
   /\ MSG_EMPTY <> MSG_SAME)
  /\ (passesValidation (app st) = false ->
      exists msg,
        effectsOf (handleTranslate svc) st = [SetToast msg]
        /\ length (filter isNotice (effectsOf (handleTranslate svc) st)) = 1).
Proof.
  split.
  - intros T _ _. split; [|discriminate].
    pose proof (handleTranslate_invalid svc st) as R.
    unfold passesValidation in R. rewrite T in R.
    specialize (R eq_refl). cbv zeta in R. simpl in R.
    apply (rejected_store _ _ R).
  - intros V.
    pose proof (handleTranslate_invalid svc st V) as R. cbv zeta in R.
    destruct (rejected_store _ _ R) as (Ef & _).
    eexists. split; [exact Ef|]. rewrite Ef. reflexivity.
Qed.

Lemma validation_order_witness :
  effectsOf (handleTranslate OpenThrows) (sample "Rust" "Rust" "   ")
  = [SetToast MSG_EMPTY]
  /\ MSG_EMPTY <> MSG_SAME.
Proof.
  exact (proj1 (@validation_order OpenThrows (sample "Rust" "Rust" "   "))
               eq_refl eq_refl ltac:(discriminate)).
Defined.

(** ** One translation at a time *)




(** ** Failure of the stream *)

(** C4.  When the constructor of the client or the call that opens the
    stream throws, or the stream throws after some fragments, the handler
    stops there and completes normally: the published output is the
    display value of the fragments received before the error, the
    accumulator holds exactly those fragments, [loading] is false again so
    that the next click runs the handler, the notice is the generic failure
    message, and the run has asked for a stream once at most (not at all
    when the constructor threw): nothing is tried again. *)
Theorem stream_error_aborts (svc svc' : service) (st : Store) :
  passesValidation (app st) = true ->
  succeeds svc = false ->
  let st' := finalStore (handleTranslate svc) st in
  fst (handleTranslate svc st) = Normal tt
  /\ outputCode (app st')
     = displayCode (concat (map textOrEmpty (received svc)))
  /\ (forall chunks, svc = Yields chunks StreamThrows ->
        fullText st' = concat (map textOrEmpty chunks))
  /\ loading (app st') = false
  /\ toast (app st') = MSG_FAILED
  /\ effectsOf (handleTranslate svc) st
     = [SetLoading true; SetOutputCode []]
         ++ requests svc (app st)
         ++ map (fun k =>
                   SetOutputCode (displayCode (accumulated (received svc) k)))
                (seq 1 (length (received svc)))
         ++ [ConsoleError; SetToast MSG_FAILED; SetLoading false]
  /\ length (filter isStreamOpen (effectsOf (handleTranslate svc) st))
     = (if clientOk svc then 1 else 0)
  /\ passesValidation (app st') = true
  /\ applyButtonClick (loading (app st')) svc' st'
     = handleTranslate svc' st'.
Proof.
  intros V F st'. subst st'. unfold finalStore.
  pose proof (handleTranslate_valid svc st V) as R.
  unfold epilogue in R. rewrite F in R.
  assert (E : effectsOf (handleTranslate svc) st
              = [SetLoading true; SetOutputCode []]
                  ++ requests svc (app st)
                  ++ published [] (received svc)
                  ++ [ConsoleError; SetToast MSG_FAILED; SetLoading false]).
  { eapply effectsOf_appended. exact R. }
  rewrite E, R. cbn [fst snd app fullText outputCode loading toast].
  repeat split.
  - intros chunks ->. reflexivity.
  - rewrite !filter_app, filter_isStreamOpen_published.
    destruct svc; reflexivity.
  - unfold passesValidation in *. exact V.
Qed.

Lemma stream_error_aborts_witness :
  let st' := finalStore
               (handleTranslate
                  (Yields [mkChunk (TextString (lit "```py"));
                           mkChunk (TextString (LF :: lit "x ="))]
                          StreamThrows))
               (sample "JavaScript" "Python" "let x = 1;") in
  outputCode (app st') = lit "x ="
  /\ loading (app st') = false
  /\ toast (app st') = MSG_FAILED.
Proof.
  pose proof (@stream_error_aborts
                (Yields [mkChunk (TextString (lit "```py"));
                         mkChunk (TextString (LF :: lit "x ="))]
                        StreamThrows)
                OpenThrows
                (sample "JavaScript" "Python" "let x = 1;")
                eq_refl eq_refl) as (_ & O & _ & L & T & _).
  intros st'. split; [exact O | split; [exact L | exact T]].
Defined.

(** ** The prompt builder *)

Lemma generate_not_explain (outLang inLang code code' : jsstring) :
  generatePrompt outLang code <> explainPrompt inLang code'.
Proof. unfold generatePrompt, explainPrompt. simpl. discriminate. Qed.

Lemma generate_not_translate (outLang inLang outLang' code code' : jsstring) :
  generatePrompt outLang code <> translatePrompt inLang outLang' code'.
Proof. unfold generatePrompt, translatePrompt. simpl. discriminate. Qed.

Lemma explain_not_translate (inLang inLang' outLang code code' : jsstring) :
  explainPrompt inLang code <> translatePrompt inLang' outLang code'.
Proof. unfold explainPrompt, translatePrompt. simpl. discriminate. Qed.

Lemma SYS_EXPLAIN_not_RAW : SYS_EXPLAIN <> SYS_RAW_CODE.
Proof. discriminate. Qed.

(** C7, as the claim states it, fails when both languages are the
    sentinel: the request passes the validation, the prompt is the
    code-generation one, and the system instruction is the explaining one,
    not the raw-code one. *)
Lemma natural_to_natural_gets_explaining_instruction :
  let st := sample "Natural Language" "Natural Language" "sort a list" in
  In (outputLanguage (app st)) LANGUAGES
  /\ inputLanguage (app st) = NATURAL_LANGUAGE
  /\ effectsOf (handleTranslate (Yields [] StreamEnds)) st
     = [SetLoading true; SetOutputCode [];
        GenerateContentStream MODEL
          (generatePrompt NATURAL_LANGUAGE (lit "sort a list")) SYS_EXPLAIN;
        TriggerConfetti; SetLoading false]
  /\ buildSystemInstruction (outputLanguage (app st)) <> SYS_RAW_CODE.
Proof.
  cbv zeta. split; [left; reflexivity|].
  split; [reflexivity|]. split; [reflexivity|].
  intros H. vm_compute in H. discriminate H.
Qed.

(** C7, amended.  With the sentinel as input language the prompt is the
    code-generation one, whatever the output language, and it is what the
    handler sends.  The system instruction follows the output language
    alone: the raw-code one for an output language other than the sentinel,
    the explaining one when the output language is the sentinel too.  For
    all inputs exactly one of the three templates is taken, and no two of
    them give the same prompt. *)
Theorem natural_language_input_prompt
    (inLang outLang code : jsstring) (svc : service) (st : Store) :
  buildPrompt NATURAL_LANGUAGE outLang code = generatePrompt outLang code
  /\ (outLang <> NATURAL_LANGUAGE ->
      buildSystemInstruction outLang = SYS_RAW_CODE)
  /\ (outLang = NATURAL_LANGUAGE ->
      buildSystemInstruction outLang = SYS_EXPLAIN)
  /\ SYS_EXPLAIN <> SYS_RAW_CODE
  /\ (inLang = NATURAL_LANGUAGE
      /\ buildPrompt inLang outLang code = generatePrompt outLang code
      \/ inLang <> NATURAL_LANGUAGE /\ outLang = NATURAL_LANGUAGE
         /\ buildPrompt inLang outLang code = explainPrompt inLang code
      \/ inLang <> NATURAL_LANGUAGE /\ outLang <> NATURAL_LANGUAGE
         /\ buildPrompt inLang outLang code
            = translatePrompt inLang outLang code)
  /\ generatePrompt outLang code <> explainPrompt inLang code
  /\ generatePrompt outLang code <> translatePrompt inLang outLang code
  /\ explainPrompt inLang code <> translatePrompt inLang outLang code
  /\ (inputLanguage (app st) = NATURAL_LANGUAGE ->
      trim (inputCode (app st)) <> [] ->
      clientOk svc = true ->
      exists rest,
        effectsOf (handleTranslate svc) st
        = SetLoading true :: SetOutputCode []
            :: GenerateContentStream MODEL
                 (generatePrompt (outputLanguage (app st)) (inputCode (app st)))
                 (buildSystemInstruction (outputLanguage (app st)))
            :: rest).
Proof.
  split; [reflexivity|].
  split. { intros N. apply strictEq_false_iff in N.
           unfold buildSystemInstruction. rewrite N. reflexivity. }
  split. { intros ->. reflexivity. }
  split; [exact SYS_EXPLAIN_not_RAW|].
  split.
  { unfold buildPrompt.
    destruct (strictEq inLang NATURAL_LANGUAGE) eqn:I.
    - left. apply strictEq_true_iff in I. auto.
    - apply strictEq_false_iff in I.
      destruct (strictEq outLang NATURAL_LANGUAGE) eqn:O.
      + right; left. apply strictEq_true_iff in O. auto.
      + right; right. apply strictEq_false_iff in O. auto. }
  split; [apply generate_not_explain|].
  split; [apply generate_not_translate|].
  split; [apply explain_not_translate|].
  intros I T C.
  assert (V : passesValidation (app st) = true).
  { unfold passesValidation. rewrite I.
    destruct (trim (inputCode (app st))); [congruence|].
    simpl. rewrite andb_false_r. reflexivity. }
  eexists. eapply effectsOf_appended.
  rewrite handleTranslate_valid by exact V.
  assert (R : requests svc (app st) = [requestOf (app st)])
    by (destruct svc; [discriminate C | reflexivity | reflexivity]).
  rewrite R. unfold requestOf, buildPrompt. rewrite I. cbn [List.app].
  change (strictEq NATURAL_LANGUAGE NATURAL_LANGUAGE) with true. cbv iota.
  reflexivity.
Qed.

Lemma natural_language_input_prompt_witness :
  buildSystemInstruction (lit "Python") = SYS_RAW_CODE
  /\ buildSystemInstruction NATURAL_LANGUAGE = SYS_EXPLAIN
  /\ exists rest,
       effectsOf (handleTranslate OpenThrows)
                 (sample "Natural Language" "Python" "sort a list")
       = SetLoading true :: SetOutputCode []
           :: GenerateContentStream MODEL
                (generatePrompt (lit "Python") (lit "sort a list"))
                SYS_RAW_CODE
           :: rest.
Proof.
  pose proof (@natural_language_input_prompt
                (lit "Java") (lit "Python") (lit "x") OpenThrows
                (sample "Natural Language" "Python" "sort a list"))
    as (_ & R & _ & _ & _ & _ & _ & _ & H).
  pose proof (@natural_language_input_prompt
                (lit "Java") NATURAL_LANGUAGE (lit "x") OpenThrows
                (sample "Natural Language" "Python" "sort a list"))
    as (_ & _ & E & _).
  split; [apply R; discriminate|].
  split; [apply E; reflexivity|].
  apply H; [reflexivity | discriminate | reflexivity].
Defined.

(** ** The closing fence *)

Lemma startsWith_app_long (a b p : jsstring) :
  length p <= length a -> startsWith (a ++ b) p = startsWith a p.
Proof.
  revert a. induction p as [|y p IH]; intros a L; [reflexivity|].
  destruct a as [|x a]; simpl in L; [lia|].
  simpl. rewrite IH by lia. reflexivity.
Qed.

Lemma displayCode_without_opening (t : jsstring) :
  startsWith t FENCE = false -> displayCode t = replaceCloseFence t.
Proof. intros H. unfold displayCode. rewrite H. reflexivity. Qed.

(** C8, as the claim states it, fails: a triple backtick inside the text
    stays in the display value, also in the intermediate renders of a
    stream; only the one at the very end goes. *)
Lemma interior_fence_is_kept :
  displayCode (lit "use ```x``` here") = lit "use ```x``` here"
  /\ displayCode (lit "use ```x``` here") <> lit "use x here"
  /\ displayCode (lit "use ```x``` here```") = lit "use ```x``` here"
  /\ effectsOf (consume [mkChunk (TextString (lit "use ```x"));
                         mkChunk (TextString (lit "``` here"))] StreamEnds)
               (sample "Python" "Natural Language" "x = 1")
     = [SetOutputCode (lit "use ```x");
        SetOutputCode (lit "use ```x``` here")].
Proof.
  split; [reflexivity|]. split; [discriminate|].
  split; reflexivity.
Qed.

(** C8, amended.  At every render the closing expression works on the
    accumulated text without its opening part (the opening fence with its
    tag, when the text starts with a fence).  It removes a triple backtick
    only when it is the last three characters of that text, and then
    exactly those three; in every other text it changes nothing.  So a
    triple backtick of that text that is followed by three characters or
    more is kept in the display value, whole and in its place, whether the
    reply is fenced or not. *)
Theorem closing_fence_removed_only_at_end (t pre post : jsstring) :
  let u := if startsWith t FENCE then replaceOpenFence t else t in
  (exists opening,
     t = opening ++ u /\ (startsWith t FENCE = false -> opening = []))
  /\ displayCode t = replaceCloseFence u
  /\ ((exists r, u = r ++ FENCE /\ displayCode t = r)
      \/ (forall r, u <> r ++ FENCE) /\ displayCode t = u)
  /\ (u = pre ++ FENCE ++ post -> 3 <= length post ->
      exists rest, displayCode t = pre ++ FENCE ++ rest).
Proof.
  intros u.
  assert (D : displayCode t = replaceCloseFence u) by reflexivity.
  split.
  { subst u. destruct (startsWith t FENCE) eqn:S.
    - destruct (replaceOpenFence_split t S) as (tag & nl & E & _).
      exists (FENCE ++ tag ++ nl). split; [|discriminate].
      rewrite E at 1. rewrite <- !app_assoc. reflexivity.
    - exists []. split; reflexivity. }
  split; [exact D|].
  assert (C : (exists r, u = r ++ FENCE /\ displayCode t = r)
              \/ (forall r, u <> r ++ FENCE) /\ displayCode t = u).
  { rewrite D. apply replaceCloseFence_cases. }
  split; [exact C|].
  intros E L.
  destruct C as [(r & Er & Dr) | (_ & Du)].
  - rewrite Dr. rewrite E, app_assoc in Er.
    apply app_eq_app in Er. destruct Er as (l & [[E1 E2] | [E1 E2]]).
    + assert (l = []) as ->.
      { apply (f_equal (@length _)) in E2. rewrite length_app in E2.
        simpl in E2. destruct l; [reflexivity | simpl in E2; lia]. }
      exists []. rewrite app_nil_r in *. symmetry. exact E1.
    + exists l. rewrite E1, <- app_assoc. reflexivity.
  - exists post. rewrite Du. exact E.
Qed.

Lemma closing_fence_removed_only_at_end_witness :
  exists rest,
    displayCode (lit "```md" ++ LF :: lit "use ```x``` here```")
    = lit "use " ++ FENCE ++ rest.
Proof.
  exact (proj2 (proj2 (proj2
    (@closing_fence_removed_only_at_end
       (lit "```md" ++ LF :: lit "use ```x``` here```")
       (lit "use ") (lit "x``` here```"))))
    eq_refl ltac:(simpl; lia)).
Defined.

(** * Further properties of the handler *)

Section HandlerRuns.

Lemma handleTranslate_effects_valid (svc : service) (st : Store) :
  passesValidation (app st) = true ->
  effectsOf (handleTranslate svc) st
  = [SetLoading true; SetOutputCode []] ++ requests svc (app st)
      ++ published [] (received svc) ++ epilogue svc.
Proof.
  intros V. eapply effectsOf_appended. apply handleTranslate_valid. exact V.
Qed.

Lemma handleTranslate_effects_invalid (svc : service) (st : Store) :
  passesValidation (app st) = false ->
  effectsOf (handleTranslate svc) st
  = [SetToast (if truthy (trim (inputCode (app st)))
               then MSG_SAME else MSG_EMPTY)].
Proof.
  intros V. eapply effectsOf_appended.
  apply (handleTranslate_invalid svc st V).
Qed.

Lemma filter_published (f : effect -> bool) (start : jsstring)
    (chunks : list chunk) :
  (forall c, f (SetOutputCode c) = false) ->
  filter f (published start chunks) = [].
Proof.
  intros F. unfold published.
  induction (seq 1 (length chunks)) as [|k ks IH]; [reflexivity|].
  cbn [map filter]. rewrite F. exact IH.
Qed.

(** X1.  The handler never lets an exception out: whatever the service
    does, the run completes normally.  A run that passes the validation
    starts by setting [loading], ends by clearing it and does neither in
    between; a run that fails the validation leaves [loading] alone. *)
Theorem handler_always_completes (svc : service) (st : Store) :
  fst (handleTranslate svc st) = Normal tt
  /\ (forall disabled, fst (applyButtonClick disabled svc st) = Normal tt)
  /\ loading (app (finalStore (handleTranslate svc) st))
     = (if passesValidation (app st) then false else loading (app st))
  /\ (passesValidation (app st) = true ->
      exists mid,
        effectsOf (handleTranslate svc) st
        = SetLoading true :: mid ++ [SetLoading false]
        /\ filter isLoadingOn mid = []
        /\ filter isLoadingOff mid = []).
Proof.
  assert (C : fst (handleTranslate svc st) = Normal tt
              /\ loading (app (finalStore (handleTranslate svc) st))
                 = (if passesValidation (app st) then false
                    else loading (app st))).
  { unfold finalStore. destruct (passesValidation (app st)) eqn:V.
    - rewrite handleTranslate_valid by exact V. split; reflexivity.
    - rewrite (handleTranslate_invalid svc st V). split; reflexivity. }
  destruct C as [C1 C2].
  split; [exact C1|]. split.
  { intros disabled. unfold applyButtonClick.
    destruct disabled; [reflexivity|exact C1]. }
  split; [exact C2|].
  intros V. rewrite handleTranslate_effects_valid by exact V.
  exists (SetOutputCode [] :: requests svc (app st)
            ++ published [] (received svc)
            ++ removelast (epilogue svc)).
  split; [|split].
  - cbn [List.app]. do 2 f_equal. rewrite <- !app_assoc. do 2 f_equal.
    unfold epilogue. destruct (succeeds svc); reflexivity.
  - cbn [filter isLoadingOn]. rewrite !filter_app.
    rewrite filter_published by reflexivity.
    unfold epilogue. destruct svc as [| |cs fin]; [| |destruct (succeeds _)];
      reflexivity.
  - cbn [filter isLoadingOff]. rewrite !filter_app.
    rewrite filter_published by reflexivity.
    unfold epilogue. destruct svc as [| |cs fin]; [| |destruct (succeeds _)];
      reflexivity.
Qed.

Lemma handler_always_completes_witness :
  exists mid,
    effectsOf (handleTranslate (Yields [mkChunk (TextString (lit "x"))]
                                       StreamThrows))
              (sample "JavaScript" "Python" "let x;")
    = SetLoading true :: mid ++ [SetLoading false]
    /\ filter isLoadingOn mid = []
    /\ filter isLoadingOff mid = [].
Proof.
  exact (proj2 (proj2 (proj2
    (@handler_always_completes
       (Yields [mkChunk (TextString (lit "x"))] StreamThrows)
       (sample "JavaScript" "Python" "let x;")))) eq_refl).
Defined.

(** X2.  A run whose stream ends normally clears the output, sends the one
    request, publishes one display value per fragment, triggers the
    confetti and clears [loading]; the output is the display value of the
    whole stream, whatever it was before, and the notice and the inputs
    stay as they were. *)
Theorem successful_run (chunks : list chunk) (st : Store) :
  passesValidation (app st) = true ->
  let st' := finalStore (handleTranslate (Yields chunks StreamEnds)) st in
  effectsOf (handleTranslate (Yields chunks StreamEnds)) st
  = [SetLoading true; SetOutputCode []; requestOf (app st)]
      ++ map (fun k => SetOutputCode (displayCode (accumulated chunks k)))
             (seq 1 (length chunks))
      ++ [TriggerConfetti; SetLoading false]
  /\ app st'
     = mkApp (inputLanguage (app st)) (outputLanguage (app st))
             (inputCode (app st))
             (displayCode (concat (map textOrEmpty chunks)))
             false (toast (app st)).
Proof.
  intros V st'. subst st'. split.
  - rewrite handleTranslate_effects_valid by exact V. reflexivity.
  - unfold finalStore. rewrite handleTranslate_valid by exact V. reflexivity.
Qed.

Lemma successful_run_witness :
  app (finalStore
         (handleTranslate
            (Yields [mkChunk (TextString (lit "```py"));
                     mkChunk (TextString (LF :: lit "x = 1"));
                     mkChunk (TextString (LF :: lit "```"))] StreamEnds))
         (mkStore (mkApp (lit "JavaScript") (lit "Python") (lit "let x = 1;")
                         (lit "old output") false (lit "old notice"))
                  [] []))
  = mkApp (lit "JavaScript") (lit "Python") (lit "let x = 1;")
          (lit "x = 1" ++ [LF]) false (lit "old notice").
Proof.
  exact (proj2 (@successful_run
                  [mkChunk (TextString (lit "```py"));
                   mkChunk (TextString (LF :: lit "x = 1"));
                   mkChunk (TextString (LF :: lit "```"))]
                  (mkStore (mkApp (lit "JavaScript") (lit "Python")
                                  (lit "let x = 1;") (lit "old output")
                                  false (lit "old notice")) [] [])
                  eq_refl)).
Defined.

(** X3.  Every run ends in exactly one of two ways: with the confetti and
    no notice, when the request passes the validation and the stream ends
    normally, or with exactly one notice and no confetti. *)
Theorem one_notice_or_confetti (svc : service) (st : Store) :
  length (filter isConfetti (effectsOf (handleTranslate svc) st))
  = (if passesValidation (app st) && succeeds svc then 1 else 0)
  /\ length (filter isNotice (effectsOf (handleTranslate svc) st))
     = (if passesValidation (app st) && succeeds svc then 0 else 1).
Proof.
  destruct (passesValidation (app st)) eqn:V.
  - rewrite handleTranslate_effects_valid by exact V.
    rewrite !filter_app, !filter_published by reflexivity.
    unfold epilogue.
    destruct svc as [| |cs fin]; [| |destruct fin]; split; reflexivity.
  - rewrite handleTranslate_effects_invalid by exact V. split; reflexivity.
Qed.

Lemma trim_not_empty_iff (s : jsstring) :
  truthy (trim s) = true <-> exists c, In c s /\ isWhiteSpace c = false.
Proof.
  split.
  - intros T. destruct (forallb isWhiteSpace s) eqn:F.
    + apply trim_empty_iff in F. rewrite F in T. discriminate T.
    + assert (E : existsb (fun c => negb (isWhiteSpace c)) s = true).
      { clear T. induction s as [|c s IH]; [discriminate F|].
        simpl in *. destruct (isWhiteSpace c); simpl in *; auto. }
      apply existsb_exists in E. destruct E as (c & I & N).
      exists c. split; [exact I|]. apply negb_true_iff. exact N.
  - intros (c & I & N). destruct (trim s) eqn:T; [|reflexivity].
    apply trim_empty_iff in T. rewrite forallb_forall in T.
    rewrite (T c I) in N. discriminate N.
Qed.

(** X4.  A run asks the service for a stream exactly when the source text
    has a character that is not white space and the two languages differ
    or the input language is the sentinel (and the client can be built);
    it then asks once, with the prompt and system instruction of the
    request. *)
Theorem stream_opened_iff_valid (svc : service) (st : Store) :
  filter isStreamOpen (effectsOf (handleTranslate svc) st)
  = (if passesValidation (app st) && clientOk svc
     then [requestOf (app st)] else [])
  /\ (passesValidation (app st) = true <->
      (exists c, In c (inputCode (app st)) /\ isWhiteSpace c = false)
      /\ (inputLanguage (app st) <> outputLanguage (app st)
          \/ inputLanguage (app st) = NATURAL_LANGUAGE)).
Proof.
  split.
  - destruct (passesValidation (app st)) eqn:V.
    + rewrite handleTranslate_effects_valid by exact V.
      rewrite !filter_app, filter_published by reflexivity.
      unfold epilogue.
      destruct svc as [| |cs fin]; [| |destruct fin]; reflexivity.
    + rewrite handleTranslate_effects_invalid by exact V. reflexivity.
  - unfold passesValidation.
    rewrite andb_true_iff, trim_not_empty_iff, negb_true_iff,
      andb_false_iff, negb_false_iff, strictEq_false_iff, strictEq_true_iff.
    tauto.
Qed.

End HandlerRuns.

Section PromptFacts.

(** X5.  The prompt is a header fixed by the two languages, two line
    feeds, and the source text as it was typed: the validation trims the
    text, the prompt does not, and two different texts never give the same
    prompt. *)
Theorem prompt_embeds_code_verbatim (inLang outLang : jsstring) :
  exists header,
    (forall code,
       buildPrompt inLang outLang code = header ++ LF :: LF :: code)
    /\ (forall code code',
          buildPrompt inLang outLang code = buildPrompt inLang outLang code' ->
          code = code').
Proof.
  assert (H : exists header, forall code,
                buildPrompt inLang outLang code = header ++ LF :: LF :: code).
  { unfold buildPrompt.
    destruct (strictEq inLang NATURAL_LANGUAGE).
    - exists (lit "Generate " ++ outLang
                ++ lit " code that performs the following task:").
      intros code. unfold generatePrompt. rewrite <- !app_assoc. reflexivity.
    - destruct (strictEq outLang NATURAL_LANGUAGE).
      + exists (lit "Explain the following " ++ inLang
                  ++ lit " code in clear, concise natural language:").
        intros code. unfold explainPrompt. rewrite <- !app_assoc. reflexivity.
      + exists (lit "Translate the following " ++ inLang ++ lit " code to "
                  ++ outLang ++ lit ".").
        intros code. unfold translatePrompt. rewrite <- !app_assoc.
        reflexivity. }
  destruct H as [header H]. exists header. split; [exact H|].
  intros code code' E. rewrite !H in E.
  apply app_inv_head in E. inversion E. reflexivity.
Qed.

Lemma prompt_embeds_code_verbatim_witness :
  exists header,
    buildPrompt (lit "Go") (lit "Rust") (lit "  x := 1  ")
    = header ++ LF :: LF :: lit "  x := 1  ".
Proof.
  destruct (@prompt_embeds_code_verbatim (lit "Go") (lit "Rust"))
    as (header & H & _).
  exists header. apply H.
Defined.

(** X6.  The system instruction fits the prompt in every case but one:
    the explaining prompt goes with the explaining instruction, the
    translating prompt with the raw-code instruction, and the generating
    prompt goes with the explaining instruction exactly when both
    languages are the sentinel. *)
Theorem instruction_matches_prompt (inLang outLang code : jsstring) :
  (buildPrompt inLang outLang code = explainPrompt inLang code ->
   buildSystemInstruction outLang = SYS_EXPLAIN)
  /\ (buildPrompt inLang outLang code = translatePrompt inLang outLang code ->
      buildSystemInstruction outLang = SYS_RAW_CODE)
  /\ (buildPrompt inLang outLang code = generatePrompt outLang code
      /\ buildSystemInstruction outLang = SYS_EXPLAIN
      <-> inLang = NATURAL_LANGUAGE /\ outLang = NATURAL_LANGUAGE).
Proof.
  unfold buildPrompt, buildSystemInstruction.
  destruct (strictEq inLang NATURAL_LANGUAGE) eqn:I;
    [apply strictEq_true_iff in I | apply strictEq_false_iff in I];
    (destruct (strictEq outLang NATURAL_LANGUAGE) eqn:O;
     [apply strictEq_true_iff in O | apply strictEq_false_iff in O]).
  - split; [auto|]. split.
    + intros H. exfalso. exact (generate_not_translate H).
    + tauto.
  - split.
    + intros H. exfalso. exact (generate_not_explain H).
    + split; [auto|]. split.
      * intros [_ H]. exfalso. apply SYS_EXPLAIN_not_RAW. symmetry. exact H.
      * intros [_ H]. contradiction.
  - split; [auto|]. split.
    + intros H. exfalso. exact (explain_not_translate H).
    + split.
      * intros [H _]. exfalso. symmetry in H. exact (generate_not_explain H).
      * intros [H _]. contradiction.
  - split.
    + intros H. exfalso. symmetry in H. exact (explain_not_translate H).
    + split; [auto|]. split.
      * intros [H _]. exfalso. symmetry in H.
        exact (generate_not_translate H).
      * intros [H _]. contradiction.
Qed.

Lemma instruction_matches_prompt_witness :
  buildSystemInstruction NATURAL_LANGUAGE = SYS_EXPLAIN
  /\ buildSystemInstruction (lit "Kotlin") = SYS_RAW_CODE.
Proof.
  split.
  - exact (proj1 (@instruction_matches_prompt
                    (lit "Swift") NATURAL_LANGUAGE (lit "let a = 1"))
                 eq_refl).
  - exact (proj1 (proj2 (@instruction_matches_prompt
                           (lit "Swift") (lit "Kotlin") (lit "let a = 1")))
                 eq_refl).
Defined.

End PromptFacts.

Section FencedBlocks.

Lemma startsWith_prefix (p r : jsstring) : startsWith (p ++ r) p = true.
Proof. apply startsWith_iff. exists r. reflexivity. Qed.

Lemma dropWhile_app_all (p : char16 -> bool) (taken rest : jsstring) :
  forallb p taken = true -> dropWhile p (taken ++ rest) = dropWhile p rest.
Proof.
  induction taken as [|c taken IH]; [reflexivity|].
  simpl. intros H. apply andb_true_iff in H. destruct H as [-> H]. auto.
Qed.

Lemma replaceOpenFence_header (tag rest : jsstring) :
  forallb isWordChar tag = true ->
  replaceOpenFence (FENCE ++ tag ++ rest)
  = dropOptLF (dropWhile isWordChar rest).
Proof.
  intros W. unfold replaceOpenFence.
  rewrite startsWith_prefix, skipn_app, skipn_all, Nat.sub_diag, app_nil_l,
    skipn_O, dropWhile_app_all by exact W.
  reflexivity.
Qed.

Lemma displayCode_header (tag rest : jsstring) :
  forallb isWordChar tag = true ->
  displayCode (FENCE ++ tag ++ rest)
  = replaceCloseFence (dropOptLF (dropWhile isWordChar rest)).
Proof.
  intros W. unfold displayCode.
  rewrite startsWith_prefix, replaceOpenFence_header by exact W.
  reflexivity.
Qed.

(** X7.  A block wrapped in fences comes out as its body: for a language
    tag of word characters and any body, the opening fence, the tag, the
    line feed and the closing fence are removed and the body is displayed
    unchanged.  While only the fence and the tag have arrived nothing is
    displayed, and before the closing fence arrives the body so far is. *)
Theorem fenced_block_round_trip (tag body : jsstring) :
  forallb isWordChar tag = true ->
  displayCode (FENCE ++ tag ++ LF :: body ++ FENCE) = body
  /\ displayCode (FENCE ++ tag) = []
  /\ displayCode (FENCE ++ tag ++ [LF]) = []
  /\ ((forall r, body <> r ++ FENCE) ->
      displayCode (FENCE ++ tag ++ LF :: body) = body).
Proof.
  intros W. split; [|split; [|split]].
  - rewrite displayCode_header by exact W.
    cbn [dropWhile isWordChar dropOptLF]. simpl.
    apply replaceCloseFence_at_end.
  - rewrite <- (app_nil_r tag), displayCode_header by exact W. reflexivity.
  - rewrite displayCode_header by exact W. reflexivity.
  - intros N. rewrite displayCode_header by exact W. simpl.
    apply replaceCloseFence_not_at_end. exact N.
Qed.

Lemma fenced_block_round_trip_witness :
  displayCode (FENCE ++ lit "rust" ++ LF :: lit "fn main() {}" ++ FENCE)
  = lit "fn main() {}".
Proof.
  exact (proj1 (@fenced_block_round_trip (lit "rust") (lit "fn main() {}")
                  eq_refl)).
Defined.

(** X8.  The opening expression stops at the first character that is not a
    word character: when the tag is followed by such a character (other
    than a line feed), that character and all that follows stay in the
    display value, so the tags c++ and c# leave ++ and # behind. *)
Theorem info_string_cut_at_first_non_word (tag : jsstring) (c : char16)
    (rest : jsstring) :
  forallb isWordChar tag = true ->
  isWordChar c = false ->
  c <> LF ->
  displayCode (FENCE ++ tag ++ c :: rest) = replaceCloseFence (c :: rest)
  /\ ((forall r, c :: rest <> r ++ FENCE) ->
      displayCode (FENCE ++ tag ++ c :: rest) = c :: rest).
Proof.
  intros W N L.
  assert (E : displayCode (FENCE ++ tag ++ c :: rest)
              = replaceCloseFence (c :: rest)).
  { rewrite displayCode_header by exact W.
    cbn [dropWhile]. rewrite N. cbn [dropOptLF].
    destruct (N.eqb_spec c LF) as [->|_]; [contradiction|reflexivity]. }
  split; [exact E|].
  intros F. rewrite E. apply replaceCloseFence_not_at_end. exact F.
Qed.

Lemma info_string_cut_at_first_non_word_witness :
  displayCode (lit "```c++" ++ LF :: lit "int x;")
  = lit "++" ++ LF :: lit "int x;".
Proof.
  refine (proj2 (@info_string_cut_at_first_non_word
                   (lit "c") 43%N (lit "+" ++ LF :: lit "int x;")
                   eq_refl eq_refl _) _).
  - discriminate.
  - intros r H. apply (f_equal (@rev _)) in H.
    rewrite (rev_app_distr r) in H. simpl in H. discriminate H.
Defined.

End FencedBlocks.

(** * Further properties of sessions *)

Section SessionInvariants.

Import Session.

Lemma length_replaceAt {A} (i : nat) (x : A) (l : list A) :
  length (replaceAt i x l) = length l.
Proof.
  revert i. induction l as [|y l IH]; intros [|i]; simpl; auto.
Qed.

Lemma length_removeAt {A} (i : nat) (l : list A) (y : A) :
  nth_error l i = Some y -> S (length (removeAt i l)) = length l.
Proof.
  revert i. induction l as [|z l IH]; intros [|i] H; simpl in *;
    try discriminate; auto.
Qed.

Lemma nothing_pending_tracks (s : session) :
  pending s = [] -> tracksAccumulator s.
Proof. intros E x I. rewrite E in I. destruct I. Qed.

Lemma nonclick_tracksAccumulator (s : session) (ev : event) :
  oneAtATime s -> tracksAccumulator s ->
  (forall ok, ev <> ClickApply ok) ->
  tracksAccumulator (step s ev).
Proof.
  intros O T N.
  destruct ev as [ok| |i|i|i c|i|i]; [exfalso; exact (N ok eq_refl)|exact T|..];
    (destruct O as [[L P] | (L & LR & inv & P)];
     [unfold step; rewrite P; destruct i; cbn [nth_error]; exact T|]);
    (destruct (T inv) as [TO TA]; [rewrite P; left; reflexivity|]);
    unfold step, fail; rewrite P, nth_error_singleton;
    (destruct i as [|i]; [|exact T]);
    destruct inv as [[|] a]; try exact T; cbn [replaceAt removeAt];
    try (apply nothing_pending_tracks; reflexivity).
  - intros x I. cbn [pending cells] in *.
    destruct I as [<-|[]]. cbn [acc at_phase].
    split; [|reflexivity]. rewrite TO, (TA eq_refl). reflexivity.
  - intros x I. cbn [pending cells] in *.
    destruct I as [<-|[]]. cbn [acc at_phase withOutputCode outputCode].
    split; [reflexivity | discriminate].
Qed.

Lemma click_render_tracksAccumulator (s : session) (ok : bool) :
  oneAtATime s -> tracksAccumulator s ->
  tracksAccumulator (step (step s (ClickApply ok)) Render).
Proof.
  intros O T. unfold step at 2.
  destruct (loading (rendered s)) eqn:R; [exact T|].
  destruct O as [[L P] | (L & LR & inv & P)]; [|congruence].
  unfold start.
  destruct (negb (truthy (trim (inputCode (rendered s)))));
    [apply nothing_pending_tracks; exact P|].
  destruct (strictEq _ _ && negb _);
    [apply nothing_pending_tracks; exact P|].
  destruct ok; [|apply nothing_pending_tracks; exact P].
  intros x I. cbn [step pending cells] in *. rewrite P in I.
  destruct I as [<-|[]]. split; reflexivity.
Qed.

Lemma promptly_tracksAccumulator (s : session) :
  promptly s -> tracksAccumulator s.
Proof.
  induction 1 as [|s ok Q IH|s ev Q IH N|s i o c n Q IH].
  - intros x [].
  - apply click_render_tracksAccumulator;
      [apply promptly_oneAtATime|]; assumption.
  - apply nonclick_tracksAccumulator;
      [apply promptly_oneAtATime| |]; assumption.
  - exact IH.
Qed.

(** X9.  When every click on Apply is rendered before the next event,
    then, while an invocation of the handler is suspended, the output cell
    is the display value of the text that invocation has accumulated so
    far (the empty text until the stream is open): nothing else writes the
    output during the translation. *)
Theorem output_tracks_accumulator (s : Session.session) :
  Session.promptly s -> tracksAccumulator s.
Proof. exact (@promptly_tracksAccumulator s). Qed.

Lemma output_tracks_accumulator_witness :
  let s := Session.steps
             (Session.edit (lit "JavaScript") (lit "Python")
                           (lit "let x = 1;") [] Session.initial)
             [Session.Render; Session.ClickApply true; Session.Render;
              Session.Opened 0;
              Session.ChunkArrived 0 (mkChunk (TextString (lit "```py")));
              Session.ChunkArrived 0 (mkChunk (TextString (LF :: lit "x =")))] in
  tracksAccumulator s
  /\ Session.pending s
     = [Session.mkInvocation Session.AwaitingChunk
          (lit "```py" ++ LF :: lit "x =")]
  /\ outputCode (Session.cells s) = lit "x =".
Proof.
  intros s. split; [|split; reflexivity].
  apply output_tracks_accumulator.
  subst s. unfold Session.steps. cbn [fold_left].
  do 3 (apply Session.prompt_step; [|discriminate]).
  apply Session.prompt_click.
  apply Session.prompt_step; [|discriminate].
  apply Session.prompt_edit. apply Session.prompt_initial.
Defined.

Lemma step_loadingBalanced (s : session) (ev : event) :
  loadingBalanced s -> loadingBalanced (step s ev).
Proof.
  unfold loadingBalanced. intros B.
  destruct ev as [ok| |i|i|i c|i|i]; unfold step, fail.
  - destruct (loading (rendered s)); [exact B|]. unfold start.
    destruct (negb (truthy (trim (inputCode (rendered s))))).
    { cbn [trace pending]. rewrite !filter_app, !length_app, B. simpl. lia. }
    destruct (strictEq _ _ && negb _).
    { cbn [trace pending]. rewrite !filter_app, !length_app, B. simpl. lia. }
    destruct ok; cbn [trace pending];
      rewrite !filter_app, !length_app, B; simpl; lia.
  - exact B.
  - destruct (nth_error (pending s) i) as [[[|] a]|] eqn:E; try exact B.
    cbn [trace pending]. rewrite length_replaceAt. exact B.
  - destruct (nth_error (pending s) i) as [[[|] a]|] eqn:E; try exact B.
    cbn [trace pending]. rewrite filter_app, !length_app, filter_app,
      length_app, B, <- (length_removeAt _ _ E). simpl. lia.
  - destruct (nth_error (pending s) i) as [[[|] a]|] eqn:E; try exact B.
    cbn [trace pending]. rewrite length_replaceAt, !filter_app, !length_app.
    simpl. lia.
  - destruct (nth_error (pending s) i) as [[[|] a]|] eqn:E; try exact B.
    cbn [trace pending]. rewrite filter_app, !length_app, filter_app,
      length_app, B, <- (length_removeAt _ _ E). simpl. lia.
  - destruct (nth_error (pending s) i) as [[[|] a]|] eqn:E; try exact B.
    cbn [trace pending]. rewrite filter_app, !length_app, filter_app,
      length_app, B, <- (length_removeAt _ _ E). simpl. lia.
Qed.

Lemma replaceAt_not_nil {A} (i : nat) (x y : A) (l : list A) :
  nth_error l i = Some y -> replaceAt i x l <> [].
Proof.
  intros E H. apply (f_equal (@length _)) in H.
  rewrite length_replaceAt in H. destruct l; [destruct i|]; discriminate.
Qed.

(** With nothing suspended [loading] is false. *)
Lemma step_idle (s : session) (ev : event) :
  (pending s = [] -> loading (cells s) = false) ->
  pending (step s ev) = [] -> loading (cells (step s ev)) = false.
Proof.
  intros I.
  destruct ev as [ok| |i|i|i c|i|i]; unfold step, fail.
  - destruct (loading (rendered s)); [exact I|]. unfold start.
    destruct (negb (truthy (trim (inputCode (rendered s))))); [exact I|].
    destruct (strictEq _ _ && negb _); [exact I|].
    destruct ok; cbn [pending cells]; [|reflexivity].
    intros H. destruct (pending s); discriminate H.
  - exact I.
  - destruct (nth_error (pending s) i) as [[[|] a]|] eqn:E; try exact I.
    cbn [pending]. intros H. exfalso. exact (replaceAt_not_nil _ _ _ E H).
  - destruct (nth_error (pending s) i) as [[[|] a]|] eqn:E; try exact I.
    reflexivity.
  - destruct (nth_error (pending s) i) as [[[|] a]|] eqn:E; try exact I.
    cbn [pending]. intros H. exfalso. exact (replaceAt_not_nil _ _ _ E H).
  - destruct (nth_error (pending s) i) as [[[|] a]|] eqn:E; try exact I.
    reflexivity.
  - destruct (nth_error (pending s) i) as [[[|] a]|] eqn:E; try exact I.
    reflexivity.
Qed.

Lemma reachable_loadingBalanced (s : session) :
  reachable s ->
  loadingBalanced s /\ (pending s = [] -> loading (cells s) = false).
Proof.
  induction 1 as [|s ev R [B I]|s i o c n R [B I]].
  - split; reflexivity.
  - split; [apply step_loadingBalanced | apply step_idle]; assumption.
  - split; assumption.
Qed.

(** X10.  In every session reached from the first render, each
    [setLoading(true)] has been answered by one [setLoading(false)], but
    for those of the invocations still suspended: once a translation has
    ended, in whatever way, [loading] has been cleared for it. *)
Theorem loading_is_balanced (s : Session.session) :
  Session.reachable s ->
  loadingBalanced s
  /\ (Session.pending s = [] ->
      length (filter isLoadingOn (Session.trace s))
      = length (filter isLoadingOff (Session.trace s))
      /\ loading (Session.cells s) = false).
Proof.
  intros R.
  destruct (reachable_loadingBalanced R) as [B I].
  split; [exact B|].
  intros P. unfold loadingBalanced in B. rewrite P in B. simpl in B.
  split; [lia | exact (I P)].
Qed.

Lemma loading_is_balanced_witness :
  let s := Session.steps
             (Session.edit (lit "JavaScript") (lit "Python")
                           (lit "let x = 1;") [] Session.initial)
             [Session.Render; Session.ClickApply true;
              Session.ClickApply true; Session.Opened 1;
              Session.StreamFailed 1; Session.Opened 0;
              Session.StreamEnded 0; Session.ClickApply false] in
  length (filter isLoadingOn (Session.trace s)) = 3
  /\ length (filter isLoadingOff (Session.trace s)) = 3
  /\ loading (Session.cells s) = false.
Proof.
  intros s.
  assert (R : Session.reachable s).
  { subst s. unfold Session.steps. cbn [fold_left].
    repeat apply Session.reach_step. apply Session.reach_edit.
    apply Session.reach_initial. }
  destruct (proj2 (@loading_is_balanced s R) eq_refl) as [E L].
  split; [reflexivity|]. split; [rewrite <- E; reflexivity | exact L].
Defined.

End SessionInvariants.

(** * Properties of the page *)

Section PageInvariants.

Import Page.

Lemma setCells_is_edit (a : AppState) (p : page) :
  outputCode a = outputCode (Session.cells (sess p)) ->
  loading a = loading (Session.cells (sess p)) ->
  sess (setCells a p)
  = Session.edit (inputLanguage a) (outputLanguage a) (inputCode a) (toast a)
                 (sess p).
Proof.
  intros O L. unfold setCells, Session.edit. cbn [sess].
  rewrite <- O, <- L. destruct a; reflexivity.
Qed.

Lemma step_translate_sess (p : page) (e : Session.event) :
  sess (step p (Translate e)) = Session.step (sess p) e.
Proof. destruct e; reflexivity. Qed.

(** What is not the translate handler leaves the session alone or edits
    its input cells and its notice. *)
Lemma step_sess (p : page) (ev : event) :
  (exists e, ev = Translate e /\ sess (step p ev) = Session.step (sess p) e)
  \/ sess (step p ev) = sess p
  \/ exists i o c n, sess (step p ev) = Session.edit i o c n (sess p).
Proof.
  destruct ev as [e|  | |i|i|t|v| |text| | |];
    [left; exists e; split; [reflexivity | apply step_translate_sess]|..];
    unfold step.
  - right; left; reflexivity.
  - right; left; reflexivity.
  - destruct (inputShown p); [|right; left; reflexivity].
    destruct (nth_error LANGUAGES i); [|right; left; reflexivity].
    right; right. do 4 eexists. cbn [sess]. apply setCells_is_edit; reflexivity.
  - destruct (outputShown p); [|right; left; reflexivity].
    destruct (nth_error LANGUAGES i); [|right; left; reflexivity].
    right; right. do 4 eexists. cbn [sess]. apply setCells_is_edit; reflexivity.
  - right; left; reflexivity.
  - destruct (loading _); [right; left; reflexivity|].
    right; right. do 4 eexists. apply setCells_is_edit; reflexivity.
  - destruct (loading _); right; left; reflexivity.
  - destruct (clipboardReads p); [right; left; reflexivity|].
    right; right. do 4 eexists. cbn [sess]. apply setCells_is_edit; reflexivity.
  - destruct (clipboardReads p); [right; left; reflexivity|].
    right; right. do 4 eexists. cbn [sess]. apply setCells_is_edit; reflexivity.
  - destruct (negb _ || loading _); [right; left; reflexivity|].
    right; right. do 4 eexists. cbn [sess]. apply setCells_is_edit;
      unfold handleDispatch; destruct (negb _); reflexivity.
  - destruct (truthy _); [|right; left; reflexivity].
    right; right. do 4 eexists. apply setCells_is_edit; reflexivity.
Qed.

Lemma page_session_reachable (p : page) :
  reachable p -> Session.reachable (sess p).
Proof.
  induction 1 as [|p ev R IH].
  - apply Session.reach_initial.
  - destruct (step_sess p ev) as [(e & _ & ->) | [-> | (i & o & c & n & ->)]].
    + apply Session.reach_step. exact IH.
    + exact IH.
    + apply Session.reach_edit. exact IH.
Qed.

Lemma page_session_promptly (p : page) :
  promptly p -> Session.promptly (sess p).
Proof.
  induction 1 as [|p ok Q IH|p ev Q IH N].
  - apply Session.prompt_initial.
  - rewrite !step_translate_sess. apply Session.prompt_click. exact IH.
  - destruct (step_sess p ev) as [(e & E & ->) | [-> | (i & o & c & n & ->)]].
    + apply Session.prompt_step; [exact IH|].
      intros ok H. apply (N ok). rewrite E, H. reflexivity.
    + exact IH.
    + apply Session.prompt_edit. exact IH.
Qed.

Lemma session_step_keeps_inputs (s : Session.session) (ev : Session.event) :
  inputLanguage (Session.cells (Session.step s ev))
  = inputLanguage (Session.cells s)
  /\ outputLanguage (Session.cells (Session.step s ev))
     = outputLanguage (Session.cells s)
  /\ inputCode (Session.cells (Session.step s ev))
     = inputCode (Session.cells s).
Proof.
  destruct ev as [ok| |i|i|i c|i|i]; unfold Session.step, Session.start,
    Session.fail.
  - destruct (loading _); [auto|].
    destruct (negb _); [auto|]. destruct (_ && _); [auto|].
    destruct ok; auto.
  - auto.
  - destruct (nth_error _ i) as [[[|] a]|]; auto.
  - destruct (nth_error _ i) as [[[|] a]|]; auto.
  - destruct (nth_error _ i) as [[[|] a]|]; auto.
  - destruct (nth_error _ i) as [[[|] a]|]; auto.
  - destruct (nth_error _ i) as [[[|] a]|]; auto.
Qed.

(** A step of the session shows what the last render showed, or, after a
    render, the cells. *)
Lemma session_step_rendered (s : Session.session) (ev : Session.event) :
  Session.rendered (Session.step s ev) = Session.rendered s
  \/ Session.rendered (Session.step s ev) = Session.cells s.
Proof.
  destruct ev as [ok| |i|i|i c|i|i]; unfold Session.step, Session.start,
    Session.fail.
  - destruct (loading _); [auto|].
    destruct (negb _); [auto|]. destruct (_ && _); [auto|].
    destruct ok; auto.
  - auto.
  - destruct (nth_error _ i) as [[[|] a]|]; auto.
  - destruct (nth_error _ i) as [[[|] a]|]; auto.
  - destruct (nth_error _ i) as [[[|] a]|]; auto.
  - destruct (nth_error _ i) as [[[|] a]|]; auto.
  - destruct (nth_error _ i) as [[[|] a]|]; auto.
Qed.

Lemma session_step_toast (s : Session.session) (ev : Session.event) :
  toast (Session.cells (Session.step s ev)) = toast (Session.cells s)
  \/ In (toast (Session.cells (Session.step s ev)))
        [MSG_EMPTY; MSG_SAME; MSG_FAILED].
Proof.
  destruct ev as [ok| |i|i|i c|i|i]; unfold Session.step, Session.start,
    Session.fail.
  - destruct (loading _); [auto|].
    destruct (negb _); [right; simpl; auto|].
    destruct (_ && _); [right; simpl; auto|].
    destruct ok; [left; reflexivity | right; simpl; auto].
  - auto.
  - destruct (nth_error _ i) as [[[|] a]|]; auto.
  - destruct (nth_error _ i) as [[[|] a]|]; auto. right; simpl; auto.
  - destruct (nth_error _ i) as [[[|] a]|]; auto.
  - destruct (nth_error _ i) as [[[|] a]|]; auto.
  - destruct (nth_error _ i) as [[[|] a]|]; auto. right; simpl; auto.
Qed.

(** The languages of the cells and those the last render showed. *)
Lemma page_languages_in_list (p : Page.page) :
  Page.reachable p ->
  (In (inputLanguage (Session.cells (Page.sess p))) LANGUAGES
   /\ In (outputLanguage (Session.cells (Page.sess p))) LANGUAGES)
  /\ In (inputLanguage (Session.rendered (Page.sess p))) LANGUAGES
  /\ In (outputLanguage (Session.rendered (Page.sess p))) LANGUAGES.
Proof.
  induction 1 as [|p ev R [[II IO] [RI RO]]].
  - repeat split; try (right; left; reflexivity);
      do 3 right; left; reflexivity.
  - destruct ev as [e|  | |i|i|t|v| |text| | |];
      [rewrite step_translate_sess|..].
    + destruct (session_step_keeps_inputs (sess p) e) as (-> & -> & _).
      split; [split; assumption|].
      destruct (session_step_rendered (sess p) e) as [-> | ->];
        split; assumption.
    + repeat split; assumption.
    + repeat split; assumption.
    + unfold step. destruct (inputShown p); [|repeat split; assumption].
      destruct (nth_error LANGUAGES i) as [lang|] eqn:E;
        [|repeat split; assumption].
      cbn [sess setCells Session.cells Session.rendered withInputLanguage
           inputLanguage outputLanguage].
      repeat split; try assumption. exact (nth_error_In _ _ E).
    + unfold step. destruct (outputShown p); [|repeat split; assumption].
      destruct (nth_error LANGUAGES i) as [lang|] eqn:E;
        [|repeat split; assumption].
      cbn [sess setCells Session.cells Session.rendered withOutputLanguage
           inputLanguage outputLanguage].
      repeat split; try assumption. exact (nth_error_In _ _ E).
    + repeat split; assumption.
    + unfold step. destruct (loading _); repeat split; assumption.
    + unfold step. destruct (loading _); repeat split; assumption.
    + unfold step. destruct (clipboardReads p); repeat split; assumption.
    + unfold step. destruct (clipboardReads p); repeat split; assumption.
    + unfold step. destruct (negb _ || loading _); [repeat split; assumption|].
      unfold handleDispatch. destruct (negb _); repeat split; assumption.
    + unfold step. destruct (truthy _); repeat split; assumption.
Qed.

(** X11.  On the page the two languages are always members of
    [LANGUAGES]: the first render starts with two of them and the pickers
    set nothing else. *)
Theorem languages_from_the_list (p : Page.page) :
  Page.reachable p ->
  In (inputLanguage (Session.cells (Page.sess p))) LANGUAGES
  /\ In (outputLanguage (Session.cells (Page.sess p))) LANGUAGES.
Proof. intros R. exact (proj1 (page_languages_in_list R)). Qed.

Lemma languages_from_the_list_witness :
  let p := Page.steps Page.initial
             [Page.ToggleOutput; Page.Translate Session.Render;
              Page.PickOutput 5; Page.PickOutput 7;
              Page.Translate Session.Render; Page.PickOutput 2;
              Page.ToggleInput; Page.Translate Session.Render;
              Page.PickInput 99; Page.PickInput 0] in
  inputLanguage (Session.cells (Page.sess p)) = NATURAL_LANGUAGE
  /\ outputLanguage (Session.cells (Page.sess p)) = lit "Go"
  /\ In (outputLanguage (Session.cells (Page.sess p))) LANGUAGES.
Proof.
  intros p. split; [reflexivity|]. split; [reflexivity|].
  refine (proj2 (@languages_from_the_list p _)).
  subst p. unfold Page.steps. cbn [fold_left].
  repeat apply Page.reach_step. apply Page.reach_initial.
Defined.

End PageInvariants.

Section Exports.

Import Page.

Lemma toLowerCaseUnit_not_upper (c : char16) :
  isUpper (toLowerCaseUnit c) = false.
Proof.
  unfold toLowerCaseUnit. destruct (isUpper c) eqn:U; [|exact U].
  unfold isUpper in *. apply andb_true_iff in U. destruct U as [A B].
  apply N.leb_le in A. apply N.leb_le in B.
  apply andb_false_iff. right. apply N.leb_gt. lia.
Qed.

Lemma toLowerCaseUnit_ascii (c : char16) :
  isAscii c = true -> isAscii (toLowerCaseUnit c) = true.
Proof.
  unfold toLowerCaseUnit, isAscii. intros A. apply N.ltb_lt in A.
  destruct (isUpper c) eqn:U; [|apply N.ltb_lt; exact A].
  unfold isUpper in U. apply andb_true_iff in U. destruct U as [_ B].
  apply N.leb_le in B. apply N.ltb_lt. lia.
Qed.

(** X12.  The name of the exported file, for a language of ASCII
    characters: the prefix axis_export. and then as many characters as the
    language has, none of them an upper-case letter or white space, all of
    them ASCII; a language already in lower case and without white space
    is its own extension.  The languages of [LANGUAGES] get pairwise
    different names. *)
Theorem export_name_is_clean (lang : jsstring) :
  forallb isAscii lang = true ->
  exists ext,
    exportName lang = lit "axis_export." ++ ext
    /\ length ext = length lang
    /\ forallb (fun c => negb (isUpper c) && negb (isWhiteSpace c)
                         && isAscii c) ext = true
    /\ (forallb (fun c => negb (isUpper c) && negb (isWhiteSpace c)) lang
        = true -> ext = lang)
    /\ NoDup (map exportName LANGUAGES).
Proof.
  intros A. exists (replaceSpaces (toLowerCase lang)).
  split; [reflexivity|]. split.
  { unfold replaceSpaces, toLowerCase. rewrite !length_map. reflexivity. }
  split.
  { unfold replaceSpaces, toLowerCase. rewrite map_map.
    induction lang as [|c lang IH]; [reflexivity|].
    simpl in A. apply andb_true_iff in A. destruct A as [Ac A].
    cbn [map forallb]. rewrite (IH A), andb_true_r.
    destruct (isWhiteSpace (toLowerCaseUnit c)) eqn:W; [reflexivity|].
    rewrite toLowerCaseUnit_not_upper, W, toLowerCaseUnit_ascii by exact Ac.
    reflexivity. }
  split.
  { clear A. intros H. unfold replaceSpaces, toLowerCase. rewrite map_map.
    induction lang as [|c lang IH]; [reflexivity|].
    simpl in H. apply andb_true_iff in H. destruct H as [Hc H].
    apply andb_true_iff in Hc. destruct Hc as [U W].
    apply negb_true_iff in U. apply negb_true_iff in W.
    cbn [map]. rewrite (IH H). unfold toLowerCaseUnit. rewrite U, W.
    reflexivity. }
  vm_compute.
  repeat (constructor; [intros H; repeat (destruct H as [H|H];
                                          [discriminate H|]); exact H|]).
  constructor.
Qed.

Lemma export_name_is_clean_witness :
  exists ext,
    exportName NATURAL_LANGUAGE = lit "axis_export." ++ ext
    /\ length ext = 16
    /\ exportName NATURAL_LANGUAGE = lit "axis_export.natural_language".
Proof.
  destruct (@export_name_is_clean NATURAL_LANGUAGE eq_refl)
    as (ext & E & L & _).
  exists ext. split; [exact E|]. split; [exact L | reflexivity].
Defined.

Lemma MSG_NOTHING_not_a_notice : ~ In MSG_NOTHING NOTICES.
Proof.
  intros H. repeat (destruct H as [H|H]; [discriminate H|]). exact H.
Qed.

Lemma utf8_not_nil (cp : N) : utf8 cp <> [].
Proof.
  unfold utf8. destruct (cp <? 128)%N; [discriminate|].
  destruct (cp <? 2048)%N; [discriminate|].
  destruct (cp <? 65536)%N; discriminate.
Qed.

Lemma utf8Encode_not_nil (s : jsstring) : s <> [] -> utf8Encode s <> [].
Proof.
  intros N. unfold utf8Encode.
  assert (E : exists cp rest, scalarValues s = cp :: rest).
  { destruct s as [|c r]; [contradiction|]. cbn [scalarValues].
    destruct (isHighSurrogate c).
    - destruct r as [|d r']; [eauto|]. destruct (isLowSurrogate d); eauto.
    - destruct (isLowSurrogate c); eauto. }
  destruct E as (cp & rest & ->). cbn [flat_map].
  intros H. apply app_eq_nil in H. exact (utf8_not_nil _ (proj1 H)).
Qed.


(** The files saved so far are well formed and the notice is one of the
    page's. *)
Lemma step_keeps_exports (p : page) (ev : event) :
  In (outputLanguage (Session.rendered (sess p))) LANGUAGES ->
  Forall (fun d => content d <> []
                   /\ exists lang, In lang LANGUAGES
                                   /\ filename d = exportName lang)
         (downloads p)
  /\ In (toast (Session.cells (sess p))) NOTICES ->
  Forall (fun d => content d <> []
                   /\ exists lang, In lang LANGUAGES
                                   /\ filename d = exportName lang)
         (downloads (step p ev))
  /\ In (toast (Session.cells (sess (step p ev)))) NOTICES.
Proof.
  intros IO [D T].
  destruct ev as [e|  | |i|i|t|v| |text| | |].
  - rewrite step_translate_sess.
    split; [destruct e; exact D|].
    destruct (session_step_toast (sess p) e) as [-> | H]; [exact T|].
    unfold NOTICES. simpl in H. simpl. tauto.
  - split; assumption.
  - split; assumption.
  - unfold step. destruct (inputShown p); [|split; assumption].
    destruct (nth_error LANGUAGES i); split; assumption.
  - unfold step. destruct (outputShown p); [|split; assumption].
    destruct (nth_error LANGUAGES i); split; assumption.
  - split; assumption.
  - unfold step. destruct (loading _); split; assumption.
  - unfold step. destruct (loading _); split; assumption.
  - unfold step. destruct (clipboardReads p); [split; assumption|].
    split; [exact D|]. simpl. tauto.
  - unfold step. destruct (clipboardReads p); [split; assumption|].
    split; [exact D|]. simpl. tauto.
  - unfold step.
    destruct (negb (truthy (outputCode (Session.rendered (sess p))))) eqn:E;
      [split; assumption|].
    cbn [orb]. destruct (loading _); [split; assumption|].
    unfold handleDispatch. rewrite E. cbn [fst snd setCells sess downloads
      Session.cells withToast toast].
    split; [|simpl; tauto].
    apply Forall_app. split; [exact D|]. constructor; [|constructor].
    cbn [content filename]. split.
    + apply utf8Encode_not_nil. intros H. rewrite H in E. discriminate E.
    + exists (outputLanguage (Session.rendered (sess p))).
      split; [exact IO|reflexivity].
  - unfold step. destruct (truthy _); [|split; assumption].
    split; [exact D|]. simpl. tauto.
Qed.

(** X13.  Whatever is done on the page, every file it has saved has a
    content that is not empty and the export name of one of the languages
    of [LANGUAGES], and the notice Nothing to export. is never shown.  A
    click on Dispatch does nothing when the last render had no output or
    had [loading] true; otherwise it saves exactly one file, the UTF-8
    bytes of the output of that render: through the button the handler
    never takes its branch for an empty output. *)
Theorem exports_are_well_formed (p : Page.page) :
  Page.reachable p ->
  Forall (fun d => content d <> []
                   /\ exists lang, In lang LANGUAGES
                                   /\ filename d = exportName lang)
         (Page.downloads p)
  /\ In (toast (Session.cells (Page.sess p))) Page.NOTICES
  /\ toast (Session.cells (Page.sess p)) <> MSG_NOTHING
  /\ (outputCode (Session.rendered (Page.sess p)) = []
      \/ loading (Session.rendered (Page.sess p)) = true ->
      Page.step p Page.ClickDispatch = p)
  /\ (outputCode (Session.rendered (Page.sess p)) <> [] ->
      loading (Session.rendered (Page.sess p)) = false ->
      Page.downloads (Page.step p Page.ClickDispatch)
      = Page.downloads p
          ++ [mkDownload
                (exportName (outputLanguage (Session.rendered (Page.sess p))))
                (utf8Encode (outputCode (Session.rendered (Page.sess p))))]
      /\ toast (Session.cells (Page.sess (Page.step p Page.ClickDispatch)))
         = MSG_DISPATCHED).
Proof.
  intros R.
  assert (H : Forall (fun d => content d <> []
                        /\ exists lang, In lang LANGUAGES
                                        /\ filename d = exportName lang)
                     (downloads p)
              /\ In (toast (Session.cells (sess p))) NOTICES).
  { induction R as [|p ev R IH].
    - split; [constructor | left; reflexivity].
    - apply step_keeps_exports; [|exact IH].
      exact (proj2 (proj2 (page_languages_in_list R))). }
  destruct H as [D T]. split; [exact D|]. split; [exact T|].
  split.
  { intros E. rewrite E in T. exact (MSG_NOTHING_not_a_notice T). }
  split.
  - intros [E | E]; unfold step; rewrite E; [reflexivity|].
    rewrite orb_true_r. reflexivity.
  - intros O L. unfold step, handleDispatch. rewrite L.
    destruct (outputCode (Session.rendered (sess p))); [contradiction|].
    split; reflexivity.
Qed.

Lemma exports_are_well_formed_witness :
  let p := Page.steps Page.initial
             [Page.ClickDispatch; Page.TypeCode (lit "let x = 1;");
              Page.Translate Session.Render;
              Page.Translate (Session.ClickApply true);
              Page.Translate Session.Render;
              Page.Translate (Session.Opened 0);
              Page.Translate
                (Session.ChunkArrived 0 (mkChunk (TextString (lit "x = 1"))));
              Page.Translate Session.Render;
              Page.ClickDispatch;
              Page.Translate (Session.StreamEnded 0);
              Page.Translate Session.Render] in
  Page.downloads p = []
  /\ Page.downloads (Page.step p Page.ClickDispatch)
     = [mkDownload (lit "axis_export.python") (lit "x = 1")]
  /\ toast (Session.cells (Page.sess p)) <> MSG_NOTHING.
Proof.
  intros p.
  assert (R : Page.reachable p).
  { subst p. unfold Page.steps. cbn [fold_left].
    repeat apply Page.reach_step. apply Page.reach_initial. }
  destruct (@exports_are_well_formed p R) as (_ & _ & N & _ & S).
  split; [reflexivity|]. split; [|exact N].
  exact (proj1 (S ltac:(discriminate) eq_refl)).
Defined.

End Exports.

Section PageAndTranslation.

Import Page.

Lemma session_step_view (s1 s2 : Session.session) (ev : Session.event) :
  view s1 = view s2 ->
  (forall ok, ev <> Session.ClickApply ok) ->
  view (Session.step s1 ev) = view (Session.step s2 ev).
Proof.
  unfold view. intros H N. injection H as Ho Hl Hp Ht.
  destruct ev as [ok| |i|i|i c|i|i];
    [exfalso; exact (N ok eq_refl)
    |cbn [Session.step Session.cells Session.pending Session.trace];
     rewrite Ho, Hl, Hp, Ht; reflexivity|..];
    unfold Session.step, Session.fail; rewrite Hp;
    destruct (nth_error (Session.pending s2) i) as [[[|] a]|];
    cbn [Session.cells Session.pending Session.trace withLoading withToast
         withOutputCode outputCode loading];
    rewrite ?Ho, ?Hl, ?Hp, ?Ht; reflexivity.
Qed.

Lemma session_steps_view (evs : list Session.event)
    (s1 s2 : Session.session) :
  view s1 = view s2 ->
  (forall ok, ~ In (Session.ClickApply ok) evs) ->
  view (Session.steps s1 evs) = view (Session.steps s2 evs).
Proof.
  revert s1 s2. induction evs as [|ev evs IH]; intros s1 s2 H N.
  - exact H.
  - rewrite !steps_cons. apply IH.
    + apply session_step_view; [exact H|].
      intros ok E. apply (N ok). left. exact E.
    + intros ok I. apply (N ok). right. exact I.
Qed.

Lemma page_step_view (p : page) (ev : event) :
  (forall e, ev <> Translate e) -> view (sess (step p ev)) = view (sess p).
Proof.
  intros N.
  destruct (step_sess p ev) as [(e & E & _) | [-> | (i & o & c & n & ->)]].
  - exfalso. exact (N e E).
  - reflexivity.
  - reflexivity.
Qed.

Lemma in_translateEvents (e : Session.event) (evs : list event) :
  In e (translateEvents evs) -> In (Translate e) evs.
Proof.
  unfold translateEvents. rewrite in_flat_map.
  intros (ev & I & H).
  destruct ev as [e0|  | |i|i|t|v| |text| | |]; simpl in H;
    try contradiction.
  destruct H as [<-|[]]. exact I.
Qed.

(** X14.  Between two clicks on Apply, what else happens on the page
    (picking languages, typing, Insert and its clipboard, Dispatch, the
    toast) changes nothing of a translation: the output, [loading], the
    suspended invocations with their accumulators and the effects are
    those of the deliveries of the stream alone. *)
Theorem translation_unaffected_by_the_page (evs : list Page.event)
    (p : Page.page) :
  (forall ok, ~ In (Page.Translate (Session.ClickApply ok)) evs) ->
  Page.view (Page.sess (Page.steps p evs))
  = Page.view (Session.steps (Page.sess p) (Page.translateEvents evs)).
Proof.
  revert p. induction evs as [|ev evs IH]; intros p N; [reflexivity|].
  assert (N' : forall ok, ~ In (Translate (Session.ClickApply ok)) evs).
  { intros ok I. apply (N ok). right. exact I. }
  change (steps p (ev :: evs)) with (steps (step p ev) evs).
  rewrite (IH _ N').
  destruct ev as [e|  | |i|i|t|v| |text| | |];
    [rewrite step_translate_sess; reflexivity|..];
    (change (translateEvents (?x :: evs)) with (translateEvents evs);
     apply session_steps_view;
     [apply page_step_view; discriminate
     | intros ok I; exact (N' ok (in_translateEvents _ _ I))]).
Qed.

Lemma translation_unaffected_by_the_page_witness :
  let evs := [Page.Translate (Session.Opened 0);
              Page.ToggleOutput; Page.Translate Session.Render;
              Page.PickOutput 8;
              Page.Translate
                (Session.ChunkArrived 0 (mkChunk (TextString (lit "x = 1"))));
              Page.ClipboardResolved (lit "other");
              Page.Translate (Session.StreamEnded 0);
              Page.Translate Session.Render;
              Page.ClickDispatch] in
  let p := Page.steps Page.initial
             [Page.TypeCode (lit "let x = 1;"); Page.ClickInsert;
              Page.Translate Session.Render;
              Page.Translate (Session.ClickApply true)] in
  Page.view (Page.sess (Page.steps p evs))
  = Page.view (Session.steps (Page.sess p)
                 [Session.Opened 0; Session.Render;
                  Session.ChunkArrived 0 (mkChunk (TextString (lit "x = 1")));
                  Session.StreamEnded 0; Session.Render]).
Proof.
  intros evs p.
  refine (@translation_unaffected_by_the_page evs p _).
  intros ok H. subst evs.
  repeat (destruct H as [H|H]; [discriminate H|]). exact H.
Defined.






(** X16.  A read of the clipboard started before the click on Apply can
    settle while the translation is in flight: the input then holds the
    clipboard text although the request was built from the text typed
    before, and although the editor is read-only and Insert disabled once
    the page is rendered with [loading] true. *)
Theorem insert_lands_during_flight (code clip : jsstring) :
  truthy (trim code) = true ->
  let p := Page.steps Page.initial
             [Page.TypeCode code; Page.Translate Session.Render;
              Page.ClickInsert;
              Page.Translate (Session.ClickApply true);
              Page.Translate Session.Render;
              Page.ClipboardResolved clip] in
  loading (Session.cells (Page.sess p)) = true
  /\ inputCode (Session.cells (Page.sess p)) = clip
  /\ toast (Session.cells (Page.sess p)) = MSG_INSERTED
  /\ Session.trace (Page.sess p)
     = [SetLoading true; SetOutputCode [];
        GenerateContentStream MODEL
          (translatePrompt (lit "JavaScript") (lit "Python") code)
          SYS_RAW_CODE]
  /\ (forall v, Page.step p (Page.TypeCode v) = p)
  /\ Page.step p Page.ClickInsert = p.
Proof.
  intros T p. subst p. unfold steps. cbn [fold_left].
  set (typed := mkApp (lit "JavaScript") (lit "Python") code [] false []).
  assert (E1 : step (step (step initial (TypeCode code))
                          (Translate Session.Render)) ClickInsert
               = mkPage (Session.mkSession typed typed [] [])
                        false false false false 1 []) by reflexivity.
  rewrite E1. clear E1.
  assert (E2 : step (mkPage (Session.mkSession typed typed [] [])
                            false false false false 1 [])
                    (Translate (Session.ClickApply true))
               = mkPage (Session.mkSession
                           (withOutputCode [] (withLoading true typed)) typed
                           [Session.mkInvocation Session.AwaitingOpen []]
                           [SetLoading true; SetOutputCode [];
                            GenerateContentStream MODEL
                              (translatePrompt (lit "JavaScript")
                                               (lit "Python") code)
                              SYS_RAW_CODE])
                        false false false false 1 []).
  { unfold step, Session.step, Session.start.
    cbn [sess Session.rendered Session.cells Session.pending Session.trace
         loading inputCode inputLanguage outputLanguage typed].
    rewrite T. reflexivity. }
  rewrite E2. clear E2.
  repeat split.
Qed.

Lemma insert_lands_during_flight_witness :
  let p := Page.steps Page.initial
             [Page.TypeCode (lit "let x = 1;"); Page.Translate Session.Render;
              Page.ClickInsert;
              Page.Translate (Session.ClickApply true);
              Page.Translate Session.Render;
              Page.ClipboardResolved (lit "pasted")] in
  loading (Session.cells (Page.sess p)) = true
  /\ inputCode (Session.cells (Page.sess p)) = lit "pasted".
Proof.
  intros p.
  destruct (@insert_lands_during_flight (lit "let x = 1;") (lit "pasted")
              eq_refl) as (L & I & _).
  split; [exact L | exact I].
Defined.

End PageAndTranslation.

(** X17.  When every click on Apply is rendered before the next event,
    everything the page can do keeps the session within what the translate
    handler relies on: at most one invocation is suspended, and exactly
    while [loading] is true; the output cell tracks its accumulator; every
    [setLoading(true)] but the one in flight has been answered; and a
    click on Apply during the flight changes nothing on the page. *)
Theorem page_keeps_session_invariants (p : Page.page) :
  Page.promptly p ->
  Session.oneAtATime (Page.sess p)
  /\ tracksAccumulator (Page.sess p)
  /\ loadingBalanced (Page.sess p)
  /\ forall ok,
       Session.pending (Page.sess p) <> [] ->
       Page.step p (Page.Translate (Session.ClickApply ok)) = p.
Proof.
  intros Q. apply page_session_promptly in Q.
  split; [exact (promptly_oneAtATime Q)|].
  split; [exact (promptly_tracksAccumulator Q)|].
  split; [exact (proj1 (reachable_loadingBalanced (promptly_reachable Q)))|].
  intros ok N.
  destruct (promptly_oneAtATime Q) as [[_ P] | (_ & LR & _)]; [contradiction|].
  unfold Page.step, Session.step. rewrite LR. destruct p; reflexivity.
Qed.

Lemma page_keeps_session_invariants_witness :
  let p := Page.steps Page.initial
             [Page.TypeCode (lit "let x = 1;");
              Page.Translate Session.Render;
              Page.Translate (Session.ClickApply true);
              Page.Translate Session.Render;
              Page.ToggleInput; Page.Translate Session.Render;
              Page.PickInput 4;
              Page.Translate (Session.Opened 0)] in
  Session.pending (Page.sess p) <> []
  /\ Page.step p (Page.Translate (Session.ClickApply true)) = p.
Proof.
  intros p.
  assert (N : Session.pending (Page.sess p) <> [])
    by (vm_compute; discriminate).
  split; [exact N|].
  refine (proj2 (proj2 (proj2 (@page_keeps_session_invariants p _))) true N).
  subst p. unfold Page.steps. cbn [fold_left].
  do 4 (apply Page.prompt_step; [|discriminate]).
  apply Page.prompt_click.
  do 2 (apply Page.prompt_step; [|discriminate]).
  apply Page.prompt_initial.
Defined.
